(** * Rovo MCP Gateway (server.js): request gating and login-link capture

    A shallow embedding of the decision logic of [src/server.js]: the
    environment-sourced configuration, the open-path classifier, the static
    bearer gate, the URL scraper, the login-link cache, the child-process
    supervisor and the route table, followed by the properties of the
    written specification that were checked against them.  Line numbers
    in the headings are those of [src/server.js]. *)

From Stdlib Require Import NArith List String Ascii Bool Lia DecimalString.
From Stdlib Require Import DecimalPos DecimalN.
From stdpp Require Import base option list strings gmap.

Local Open Scope N_scope.
#[local] Set Warnings "-clear-no-such-hyp".

(** ** JavaScript strings

    A JavaScript string is a sequence of UTF-16 code units; the regular
    expression of [extractUrls] has no [u] flag and therefore works on code
    units, and [===], [startsWith] and [Set.has] compare them one by one. *)
Module JS.

Abbreviation char16 := N.
Abbreviation jsstring := (list char16).

(** A literal of the source text (all of them are ASCII). *)
Definition lit (s : string) : jsstring :=
  map N_of_ascii (list_ascii_of_string s).

(** [a === b] on strings. *)
Definition str_eqb (a b : jsstring) : bool := bool_decide (a = b).

(** [s.startsWith(p)]. *)
Fixpoint startsWith (p s : jsstring) : bool :=
  match p, s with
  | [], _ => true
  | _ :: _, [] => false
  | a :: p', b :: s' => (a =? b) && startsWith p' s'
  end.

(** [a || d] where [a] is a string or undefined and [d] a string:
    undefined and the empty string are the falsy ones. *)
Definition or_default (a : option jsstring) (d : jsstring) : jsstring :=
  match a with
  | Some (c :: s) => c :: s
  | _ => d
  end.

(** Truthiness of a string-or-null value, as tested by [!v]. *)
Definition truthy (a : option jsstring) : bool :=
  match a with
  | Some (_ :: _) => true
  | _ => false
  end.

(** [a ?? d] on a number or null. *)
Definition nullish (a : option N) (d : N) : N :=
  match a with
  | Some n => n
  | None => d
  end.

(** The text a template literal gives for a number-or-null exit code. *)
Definition show_code (code : option N) : jsstring :=
  match code with
  | Some n => lit (NilEmpty.string_of_uint (N.to_uint n))
  | None => lit "null"
  end.

End JS.
Import JS.

(** ** The regular expression of [extractUrls] and [String.prototype.match]

    The pattern reads: the letters http, an optional s, a colon and two
    slashes, then one or more characters that are neither white space nor
    a double quote, a single quote, a closing parenthesis or a closing
    bracket; it carries the global flag. *)
Module Regex.

(** The class [\s]: WhiteSpace and LineTerminator code points. *)
Definition isWhiteSpace (c : char16) : bool :=
  (c =? 9) || (c =? 10) || (c =? 11) || (c =? 12) || (c =? 13) ||
  (c =? 32) || (c =? 160) || (c =? 5760) ||
  ((8192 <=? c) && (c <=? 8202)) ||
  (c =? 8232) || (c =? 8233) || (c =? 8239) || (c =? 8287) ||
  (c =? 12288) || (c =? 65279).

(** The four closing delimiters of the class: double quote (34), single
    quote (39), closing parenthesis (41), closing bracket (93). *)
Definition isClosing (c : char16) : bool :=
  (c =? 34) || (c =? 39) || (c =? 41) || (c =? 93).

(** The negated class: any code unit outside the two sets above. *)
Definition urlChar (c : char16) : bool :=
  negb (isWhiteSpace c || isClosing c).

(** Remove a literal from the front of the subject, when it is there. *)
Fixpoint eat (p s : jsstring) : option jsstring :=
  match p, s with
  | [], _ => Some s
  | _ :: _, [] => None
  | a :: p', b :: s' => if a =? b then eat p' s' else None
  end.

(** The greedy repetition of the class: the longest run of class
    members and what is left after it. *)
Fixpoint run (s : jsstring) : jsstring * jsstring :=
  match s with
  | c :: s' =>
      if urlChar c then let '(b, r) := run s' in (c :: b, r) else ([], s)
  | [] => ([], [])
  end.

Definition HTTP : jsstring := Eval cbv in lit "http".
Definition HTTPS : jsstring := Eval cbv in lit "https".
Definition SEP : jsstring := Eval cbv in lit "://".

(** The part of the pattern after the scheme: the separator and the
    run, which must hold one character at least. *)
Definition tail (scheme s : jsstring) : option (jsstring * jsstring) :=
  match eat SEP s with
  | Some s' =>
      match run s' with
      | ([], _) => None
      | (b, r) => Some (scheme ++ SEP ++ b, r)
      end
  | None => None
  end.

(** The pattern anchored at the front of [s]: the match and the rest of
    the subject.  The [s?] is greedy: the [s] is taken first and given
    back when the rest of the pattern fails with it. *)
Definition matchHere (s : jsstring) : option (jsstring * jsstring) :=
  match eat HTTP s with
  | Some s1 =>
      match s1 with
      | c :: s2 =>
          if c =? 115 then
            match tail HTTPS s2 with
            | Some r => Some r
            | None => tail HTTP s1
            end
          else tail HTTP s1
      | [] => tail HTTP s1
      end
  | None => None
  end.

(** One [exec]: the match at the first index, from the current one on,
    where the pattern matches. *)
Fixpoint exec (s : jsstring) : option (jsstring * jsstring) :=
  match matchHere s with
  | Some r => Some r
  | None =>
      match s with
      | _ :: s' => exec s'
      | [] => None
      end
  end.

(** The loop of [String.prototype.match] for a global pattern: [exec]
    again and again, each time from the end of the previous match, until
    it fails.  A match is never empty, so the index always advances;
    [fuel] bounds the number of rounds. *)
Fixpoint matchLoop (fuel : nat) (s : jsstring) : list jsstring :=
  match fuel with
  | O => []
  | S fuel' =>
      match exec s with
      | Some (m, r) => m :: matchLoop fuel' r
      | None => []
      end
  end.

(** [text.match(re)]: the array of all matches, or null when there is
    none. *)
Definition stringMatch (text : jsstring) : option (list jsstring) :=
  match matchLoop (length text) text with
  | [] => None
  | m :: ms => Some (m :: ms)
  end.

End Regex.

(** ** Configuration read from the environment (server.js, lines 22-37) *)
Module Config.

(** What evaluating a top-level statement gives: a value, or a thrown
    [Error] with its message. *)
Inductive result (A : Type) : Type :=
| Ok (a : A)
| Throw (message : string).
Arguments Ok {A} a.
Arguments Throw {A} message.

Definition bind {A B} (r : result A) (k : A -> result B) : result B :=
  match r with
  | Ok a => k a
  | Throw m => Throw m
  end.

Notation "'try!' x := r 'in' k" := (bind r (fun x => k))
  (at level 10, x name, r at level 100, k at level 200).

(** [process.env]: variable names to their text. *)
Abbreviation env := (gmap string jsstring).

Definition requireEnv (e : env) (name : string) : result jsstring :=
  match e !! name with
  | Some (c :: v) => Ok (c :: v)
  | _ => Throw ("Missing required env var: " ++ name)%string
  end.

(** The constants of the module.  [PORT_text] and [MCP_REMOTE_PORT_text]
    are the arguments handed to [parseInt], which never throws. *)
Record Config : Type := {
  PUBLIC_BASE_URL : jsstring;
  STATIC_BEARER_TOKEN : jsstring;
  PORT_text : jsstring;
  MCP_REMOTE_PORT_text : jsstring;
  ROVO_MCP_URL : jsstring
}.

Definition DEFAULT_MCP_URL : jsstring :=
  lit "https://mcp.atlassian.com/v1/mcp".

Definition loadConfig (e : env) : result Config :=
  try! base := requireEnv e "PUBLIC_BASE_URL" in
  try! token := requireEnv e "STATIC_BEARER_TOKEN" in
  Ok {| PUBLIC_BASE_URL := base;
        STATIC_BEARER_TOKEN := token;
        PORT_text := or_default (e !! "PORT"%string) (lit "8080");
        MCP_REMOTE_PORT_text :=
          or_default (e !! "MCP_REMOTE_PORT"%string) (lit "9696");
        ROVO_MCP_URL :=
          or_default (e !! "ROVO_MCP_URL"%string)
            (or_default (e !! "ROVO_MCP_SSE_URL"%string)
               DEFAULT_MCP_URL) |}.

End Config.
Import Config.

(** ** The gateway: classifier, gate, scraper, cache, routes, supervisor *)
Module Gateway.

Inductive Method : Type :=
| GET | HEAD | POST | PUT | DELETE | PATCH | OPTIONS.

(** What the handlers read of a request: [req.method], [req.path] and
    [req.headers.authorization] (undefined when the header is absent). *)
Record Request : Type := {
  method : Method;
  path : jsstring;
  authorization : option jsstring
}.

(** The values given to [res.json]. *)
Local Unset Elimination Schemes.
Inductive json : Type :=
| JNull
| JBool (b : bool)
| JStr (s : jsstring)
| JObj (fields : list (string * json)).
Local Set Elimination Schemes.

Definition ofNullable (v : option jsstring) : json :=
  match v with
  | Some s => JStr s
  | None => JNull
  end.

(** [field k v]: the value of key [k] in an object. *)
Definition field (k : string) (v : json) : option json :=
  match v with
  | JObj fs => snd <$> List.find (fun kv => String.eqb (fst kv) k) fs
  | _ => None
  end.

(** How a request ends: answered by the gateway itself with a status and
    a JSON body, handed to the proxy ([marked] when the proxy adds the
    [x-rovo-mcp-gateway] header to the upstream's answer), or left to the
    router's final handler. *)
Inductive Outcome : Type :=
| Respond (status : N) (body : json)
| Proxied (marked : bool)
| Unhandled.

(** What a handler does: answer, or call [next()]. *)
Inductive Handled : Type :=
| Done (o : Outcome)
| Next.

(** *** Path classifier (lines 52-64) *)

Definition OPEN_PATHS_EXACT : gset jsstring :=
  {[ lit "/oauth/callback"; lit "/auth/callback"; lit "/callback" ]}.

Definition isOpenPath (path : jsstring) : bool :=
  if bool_decide (path ∈ OPEN_PATHS_EXACT) then true
  else if startsWith (lit "/oauth/") path then true
  else if startsWith (lit "/auth/") path then true
  else false.

(** *** Static bearer gate (lines 67-75) *)

Definition unauthorized : Outcome :=
  Respond 401 (JObj [("error"%string, JStr (lit "Unauthorized"))]).

Definition authGate (token : jsstring) (req : Request) : Handled :=
  if isOpenPath (path req) then Next
  else
    let auth := or_default (authorization req) [] in
    let expected := lit "Bearer " ++ token in
    if negb (str_eqb auth expected) then Done unauthorized
    else Next.

(** *** URL scraper (lines 84-88) *)

Definition extractUrls (text : jsstring) : list jsstring :=
  match Regex.stringMatch text with
  | Some urls => urls
  | None => []
  end.

(** *** Login-link cache (lines 81-82, 110-116, 138-149) *)

Record Cache : Type := {
  latestLoginUrl : option jsstring;
  latestLoginUrlSeenAt : option jsstring
}.

Definition noLink : Cache :=
  {| latestLoginUrl := None; latestLoginUrlSeenAt := None |}.

(** [capture(chunk)]; [now] is what [new Date().toISOString()] gives at
    the time of the call. *)
Definition capture (c : Cache) (chunk now : jsstring) : Cache :=
  let urls := extractUrls chunk in
  if (0 <? length urls)%nat then
    {| latestLoginUrl := urls !! (length urls - 1)%nat;
       latestLoginUrlSeenAt := Some now |}
  else c.

Definition noLinkYet : Outcome :=
  Respond 404
    (JObj [("error"%string, JStr (lit "No login link captured yet."));
           ("hint"%string,
            JStr (lit "Trigger an MCP connection attempt (call /mcp with your static bearer token), then retry /login-link."))]).

Definition loginLink (c : Cache) : Outcome :=
  if negb (truthy (latestLoginUrl c)) then noLinkYet
  else
    Respond 200
      (JObj [("login_url"%string, ofNullable (latestLoginUrl c));
             ("seen_at"%string, ofNullable (latestLoginUrlSeenAt c))]).

Definition healthy : Outcome :=
  Respond 200 (JObj [("ok"%string, JBool true)]).

(** *** Routes, in the order of registration (lines 42-43, 67, 138-174)

    The router of Express, with its default options, as far as the
    literal paths of this file go: a route matches its path without
    regard to the case of ASCII letters and with or without one trailing
    slash; a [get] route also serves HEAD; a mounted middleware matches
    every path that continues its mount path at a segment boundary, and
    every path at all when mounted at the root. *)

Definition lower (c : char16) : char16 :=
  if (65 <=? c) && (c <=? 90) then c + 32 else c.

Definition dropSlash (p : jsstring) : jsstring :=
  match List.rev p with
  | c :: r => if c =? 47 then List.rev r else p
  | [] => p
  end.

Definition routeMatch (pattern p : jsstring) : bool :=
  let base := map lower (dropSlash pattern) in
  str_eqb (map lower p) base || str_eqb (map lower p) (base ++ [47]).

Definition mountMatch (mount p : jsstring) : bool :=
  if str_eqb mount (lit "/") then true
  else
    match Regex.eat (map lower (dropSlash mount)) (map lower p) with
    | Some [] => true
    | Some (c :: _) => c =? 47
    | None => false
    end.

Definition servesGet (m : Method) : bool :=
  match m with
  | GET | HEAD => true
  | _ => false
  end.

Inductive Layer : Type :=
| Get (pattern : jsstring) (h : Cache -> Request -> Handled)
| Use (mount : jsstring) (h : Cache -> Request -> Handled).

Definition layerMatch (l : Layer) (req : Request) : bool :=
  match l with
  | Get pattern _ => servesGet (method req) && routeMatch pattern (path req)
  | Use mount _ => mountMatch mount (path req)
  end.

Definition handler (l : Layer) : Cache -> Request -> Handled :=
  match l with
  | Get _ h => h
  | Use _ h => h
  end.

Fixpoint dispatch (ls : list Layer) (c : Cache) (req : Request) : Outcome :=
  match ls with
  | [] => Unhandled
  | l :: ls' =>
      if layerMatch l req then
        match handler l c req with
        | Done o => o
        | Next => dispatch ls' c req
        end
      else dispatch ls' c req
  end.

Definition layers (cfg : Config) : list Layer :=
  [ Get (lit "/healthz") (fun _ _ => Done healthy);
    Get (lit "/healthz/") (fun _ _ => Done healthy);
    Use (lit "/") (fun _ req => authGate (STATIC_BEARER_TOKEN cfg) req);
    Get (lit "/login-link") (fun c _ => Done (loginLink c));
    Use (lit "/mcp") (fun _ _ => Done (Proxied true));
    Use (lit "/") (fun _ _ => Done (Proxied false)) ].

Definition app (cfg : Config) (c : Cache) (req : Request) : Outcome :=
  dispatch (layers cfg) c req.

(** *** Supervisor and event loop (lines 90-136)

    One thread serves the callbacks one after the other.  The process is
    either running, with its cache, or gone after [process.exit]. *)

Inductive Proc : Type :=
| Running (c : Cache)
| Exited (status : N).

Inductive Event : Type :=
| StdoutData (chunk now : jsstring)
| StderrData (chunk now : jsstring)
| ChildExit (code : option N)
| Incoming (req : Request).

Inductive Effect : Type :=
| Spawn (cmd : jsstring) (args : list jsstring)
| WriteStdout (chunk : jsstring)
| WriteStderr (chunk : jsstring)
| ConsoleError (line : jsstring)
| Send (req : Request) (o : Outcome).

(** The call of [spawn] in [startMcpRemote]; [win32] tells the platform,
    [port] is [String(MCP_REMOTE_PORT)] and [publicHost] the host of
    [new URL(PUBLIC_BASE_URL)]. *)
Definition startMcpRemote (cfg : Config) (win32 : bool)
    (port publicHost : jsstring) : Effect :=
  Spawn (if win32 then lit "npx.cmd" else lit "npx")
    [lit "mcp-remote"; ROVO_MCP_URL cfg; port; lit "--host"; publicHost].

Definition step (cfg : Config) (p : Proc) (e : Event) : Proc * list Effect :=
  match p with
  | Exited status => (Exited status, [])
  | Running c =>
      match e with
      | StdoutData chunk now =>
          (Running (capture c chunk now), [WriteStdout chunk])
      | StderrData chunk now =>
          (Running (capture c chunk now), [WriteStderr chunk])
      | ChildExit code =>
          (Exited (nullish code 1),
           [ConsoleError (lit "mcp-remote exited with code " ++ show_code code)])
      | Incoming req => (Running c, [Send req (app cfg c req)])
      end
  end.

Fixpoint run (cfg : Config) (p : Proc) (es : list Event)
  : Proc * list Effect :=
  match es with
  | [] => (p, [])
  | e :: es' =>
      let '(p1, out1) := step cfg p e in
      let '(p2, out2) := run cfg p1 es' in
      (p2, out1 ++ out2)
  end.

End Gateway.
Import Gateway.

(** ** The classifier of the revision with a version route

    One revision of the file kept in the repository registers
    [GET /__version] next to [GET /healthz] and names both paths in its
    classifier, after the same exact set and prefixes. *)
Module Versioned.

Definition isOpenPath (path : jsstring) : bool :=
  if bool_decide (path ∈ OPEN_PATHS_EXACT) then true
  else if startsWith (lit "/oauth/") path then true
  else if startsWith (lit "/auth/") path then true
  else if str_eqb path (lit "/healthz") then true
  else if str_eqb path (lit "/__version") then true
  else false.

End Versioned.

(** ** The written specification, in its own words *)
Module Spec.

(** The characters at which a URL stops: white space and the four
    closing delimiters. *)
Definition stops (c : char16) : Prop :=
  Regex.isWhiteSpace c = true \/ c = 34 \/ c = 39 \/ c = 41 \/ c = 93.

(** Nothing of [r] can extend a match that ends in front of it. *)
Definition ended (r : jsstring) : Prop :=
  match r with
  | [] => True
  | c :: _ => stops c
  end.

Definition isScheme (p : jsstring) : Prop :=
  p = lit "http://" \/ p = lit "https://".

(** [s] begins with the match [m], which is followed by [r]: [m] is a
    scheme and then every character up to the first one that stops it. *)
Definition UrlAt (s m r : jsstring) : Prop :=
  exists scheme body,
    isScheme scheme /\ body <> [] /\ Forall (fun c => ~ stops c) body /\
    ended r /\ m = scheme ++ body /\ s = m ++ r.

(** The matches of a text, from left to right and without overlap: at
    each position either a match begins, and the scan goes on behind it,
    or none does, and the scan goes on one character further. *)
Inductive Scanned : jsstring -> list jsstring -> Prop :=
| scanned_end : Scanned [] []
| scanned_skip c s us :
    (forall m r, ~ UrlAt (c :: s) m r) ->
    Scanned s us ->
    Scanned (c :: s) us
| scanned_url s m r us :
    UrlAt s m r ->
    Scanned r us ->
    Scanned s (m :: us).

(** The fixed open set of the specification as far as this file has it
    (it registers no version route): the health path and its
    trailing-slash variant, the two OAuth prefixes, the exact callback
    paths. *)
Definition inOpenSet (p : jsstring) : Prop :=
  p = lit "/healthz" \/ p = lit "/healthz/" \/
  (exists s, p = lit "/oauth/" ++ s) \/ (exists s, p = lit "/auth/" ++ s) \/
  p = lit "/oauth/callback" \/ p = lit "/auth/callback" \/
  p = lit "/callback".

(** A variable of the environment counts as missing when it is unset
    or empty. *)
Definition missing (e : env) (name : string) : Prop :=
  e !! name = None \/ e !! name = Some [].

Definition given (e : env) (name : string) (v : jsstring) : Prop :=
  e !! name = Some v /\ v <> [].

(** An event that feeds [chunk], read at time [now], to the capture
    path: data on either output stream of the child. *)
Definition isData (e : Event) (chunk now : jsstring) : Prop :=
  e = StdoutData chunk now \/ e = StderrData chunk now.

(** An event that brings no URL: anything but a chunk in which the
    scraper finds one. *)
Definition urlFree (e : Event) : Prop :=
  match e with
  | StdoutData chunk _ | StderrData chunk _ => extractUrls chunk = []
  | _ => True
  end.

(** A chunk in which the scraper finds a URL. *)
Definition bearsUrl (e : Event) : Prop :=
  match e with
  | StdoutData chunk _ | StderrData chunk _ => extractUrls chunk <> []
  | _ => False
  end.

(** The two fields of the cache are null together. *)
Definition paired (c : Cache) : Prop :=
  latestLoginUrl c = None <-> latestLoginUrlSeenAt c = None.

(** A cache that holds a link, with its time. *)
Definition holds (c : Cache) : Prop :=
  exists u t, u <> [] /\
    c = {| latestLoginUrl := Some u; latestLoginUrlSeenAt := Some t |}.

(** The body of a successful login-link answer. *)
Definition linkBody (url seenAt : jsstring) : json :=
  JObj [("login_url"%string, JStr url); ("seen_at"%string, JStr seenAt)].

End Spec.

(** ** Sample inputs *)
Module Sample.

(** An environment with the two required variables and no upstream URL
    under either name. *)
Definition bareEnv : env :=
  <[ "PUBLIC_BASE_URL"%string := lit "https://rovo-gateway.onrender.com" ]>
    (<[ "STATIC_BEARER_TOKEN"%string := lit "s3cret" ]> ∅).

(** The same with the upstream URL under its legacy name only. *)
Definition legacyEnv : env :=
  <[ "ROVO_MCP_SSE_URL"%string := lit "https://mcp.atlassian.com/v1/sse" ]>
    bareEnv.

Definition config : Config :=
  {| PUBLIC_BASE_URL := lit "https://rovo-gateway.onrender.com";
     STATIC_BEARER_TOKEN := lit "s3cret";
     PORT_text := lit "8080";
     MCP_REMOTE_PORT_text := lit "9696";
     ROVO_MCP_URL := DEFAULT_MCP_URL |}.

Definition request (m : Method) (p : string) (auth : option string)
  : Request :=
  {| method := m; path := lit p; authorization := lit <$> auth |}.

Definition loginChunk : jsstring :=
  lit "Login at https://id.example/auth?state=1 please".

Definition retryChunk : jsstring :=
  lit "Retry: https://id.example/old (expired) or https://id.example/auth?state=2".

Definition held : Cache :=
  {| latestLoginUrl := Some (lit "https://id.example/auth?state=1");
     latestLoginUrlSeenAt := Some (lit "2026-01-05T10:00:00.000Z") |}.

End Sample.

(** ** The configuration of the revisions that proxy [/sse]

    Two older revisions kept in the repository read the upstream URL with
    [requireEnv], under the name [ROVO_MCP_SSE_URL] only, after the ports. *)
Module Legacy.

Record Config : Type := {
  PUBLIC_BASE_URL : jsstring;
  STATIC_BEARER_TOKEN : jsstring;
  PORT_text : jsstring;
  MCP_REMOTE_PORT_text : jsstring;
  ROVO_MCP_SSE_URL : jsstring
}.

Definition loadConfig (e : env) : result Config :=
  try! base := requireEnv e "PUBLIC_BASE_URL" in
  try! token := requireEnv e "STATIC_BEARER_TOKEN" in
  try! upstream := requireEnv e "ROVO_MCP_SSE_URL" in
  Ok {| PUBLIC_BASE_URL := base;
        STATIC_BEARER_TOKEN := token;
        PORT_text := or_default (e !! "PORT"%string) (lit "8080");
        MCP_REMOTE_PORT_text :=
          or_default (e !! "MCP_REMOTE_PORT"%string) (lit "9696");
        ROVO_MCP_SSE_URL := upstream |}.

End Legacy.

(** ** Reading a decimal numeral *)
Module Decimal.

Definition isDigit (c : char16) : bool := (48 <=? c) && (c <=? 57).

(** The number that the digits of [s] write behind the digits that gave
    [acc]; nothing when [s] holds another character. *)
Fixpoint readDigits (acc : N) (s : jsstring) : option N :=
  match s with
  | [] => Some acc
  | c :: s' =>
      if isDigit c then readDigits (10 * acc + (c - 48)) s' else None
  end.

(** The number that a text of one decimal digit at least writes. *)
Definition readDecimal (s : jsstring) : option N :=
  match s with
  | [] => None
  | _ :: _ => readDigits 0 s
  end.

End Decimal.

(** ** Notions used to describe traces and scans *)
Module Trace.

(** What a URL looks like: a scheme and then one character at least, none
    of which stops it. *)
Definition urlShaped (u : jsstring) : Prop :=
  exists scheme body,
    Spec.isScheme scheme /\ body <> [] /\
    Forall (fun c => ~ Spec.stops c) body /\ u = scheme ++ body.

(** The text made of [gaps] and [urls] in turn, and of [last] behind them:
    the first gap, the first URL, the second gap, the second URL ... *)
Definition weave (gaps urls : list jsstring) (last : jsstring) : jsstring :=
  concat (zip_with (fun g u => g ++ u) gaps urls) ++ last.



(** The header the gate expects. *)
Definition expected (cfg : Config.Config) : jsstring :=
  lit "Bearer " ++ Config.STATIC_BEARER_TOKEN cfg.

End Trace.

(** ** The route table of the revision with a version route

    That revision reads the upstream URL under one name only, answers
    [GET /__version] in front of the gate, marks the answers of the exact
    [/mcp] route with a header of its own before the proxy takes them, and
    has no proxy for the other paths. *)
Module VersionedApp.

Definition loadConfig (e : env) : result Config :=
  try! base := requireEnv e "PUBLIC_BASE_URL" in
  try! token := requireEnv e "STATIC_BEARER_TOKEN" in
  Ok {| PUBLIC_BASE_URL := base;
        STATIC_BEARER_TOKEN := token;
        PORT_text := or_default (e !! "PORT"%string) (lit "8080");
        MCP_REMOTE_PORT_text :=
          or_default (e !! "MCP_REMOTE_PORT"%string) (lit "9696");
        ROVO_MCP_URL :=
          or_default (e !! "ROVO_MCP_URL"%string) DEFAULT_MCP_URL |}.

(** What a handler does: answer, or call [next()], having set the marker
    header on the response or not. *)
Inductive Handled : Type :=
| Done (o : Outcome)
| Next (marked : bool).

Inductive Layer : Type :=
| Get (pattern : jsstring) (h : Cache -> Request -> bool -> Handled)
| All (pattern : jsstring) (h : Cache -> Request -> bool -> Handled)
| Use (mount : jsstring) (h : Cache -> Request -> bool -> Handled).

Definition layerMatch (l : Layer) (req : Request) : bool :=
  match l with
  | Get pattern _ => servesGet (method req) && routeMatch pattern (path req)
  | All pattern _ => routeMatch pattern (path req)
  | Use mount _ => mountMatch mount (path req)
  end.

Definition handler (l : Layer) : Cache -> Request -> bool -> Handled :=
  match l with
  | Get _ h => h
  | All _ h => h
  | Use _ h => h
  end.

Fixpoint dispatch (ls : list Layer) (c : Cache) (req : Request)
    (marked : bool) : Outcome :=
  match ls with
  | [] => Unhandled
  | l :: ls' =>
      if layerMatch l req then
        match handler l c req marked with
        | Done o => o
        | Next marked' => dispatch ls' c req marked'
        end
      else dispatch ls' c req marked
  end.

Definition version (e : env) (cfg : Config) : Outcome :=
  Respond 200
    (JObj [("ok"%string, JBool true);
           ("build"%string,
            JStr (or_default (e !! "RENDER_GIT_COMMIT"%string)
                    (lit "local-dev")));
           ("mcp_upstream"%string, JStr (ROVO_MCP_URL cfg));
           ("note"%string,
            JStr (lit "If you see this, the latest server.js is running."))]).

Definition authGate (token : jsstring) (req : Request) (marked : bool)
  : Handled :=
  if Versioned.isOpenPath (path req) then Next marked
  else
    let auth := or_default (authorization req) [] in
    let expected := lit "Bearer " ++ token in
    if negb (str_eqb auth expected) then Done unauthorized
    else Next marked.

Definition noLinkYet : Outcome :=
  Respond 404
    (JObj [("error"%string, JStr (lit "No login link captured yet."));
           ("hint"%string,
            JStr (lit "Call /mcp once (with bearer token) to trigger OAuth, then retry."))]).

Definition loginLink (c : Cache) : Outcome :=
  if negb (truthy (latestLoginUrl c)) then noLinkYet
  else
    Respond 200
      (JObj [("login_url"%string, ofNullable (latestLoginUrl c));
             ("seen_at"%string, ofNullable (latestLoginUrlSeenAt c))]).

Definition layers (e : env) (cfg : Config) : list Layer :=
  [ Get (lit "/healthz") (fun _ _ _ => Done healthy);
    Get (lit "/__version") (fun _ _ _ => Done (version e cfg));
    Use (lit "/") (fun _ req marked =>
                     authGate (STATIC_BEARER_TOKEN cfg) req marked);
    Get (lit "/login-link") (fun c _ _ => Done (loginLink c));
    All (lit "/mcp") (fun _ _ _ => Next true);
    Use (lit "/mcp") (fun _ _ marked => Done (Proxied marked)) ].

Definition app (e : env) (cfg : Config) (c : Cache) (req : Request)
  : Outcome :=
  dispatch (layers e cfg) c req false.

End VersionedApp.

(** * Properties *)

(** ** Strings *)

Lemma startsWith_app p s :
  startsWith p s = true <-> exists r, s = p ++ r.
Proof.
  revert s; induction p as [|a p IH]; intros s; simpl.
  - split; [intros _; by exists s | done].
  - destruct s as [|b s].
    + split; [done | intros [r Hr]; discriminate].
    + rewrite andb_true_iff, N.eqb_eq, IH. split.
      * intros [-> [r ->]]. by exists r.
      * intros [r Hr]. injection Hr as -> ->. eauto.
Qed.

Lemma str_eqb_eq a b : str_eqb a b = true <-> a = b.
Proof. unfold str_eqb. by rewrite bool_decide_eq_true. Qed.

Lemma str_eqb_neq a b : str_eqb a b = false <-> a <> b.
Proof. unfold str_eqb. by rewrite bool_decide_eq_false. Qed.

(** ** The pattern *)
Section Pattern.
Import Regex Spec.

Lemma urlChar_stops c : urlChar c = true <-> ~ stops c.
Proof.
  unfold urlChar, isClosing, stops.
  rewrite negb_true_iff, orb_false_iff, !orb_false_iff, !N.eqb_neq.
  destruct (isWhiteSpace c); naive_solver.
Qed.

Lemma urlChar_false c : urlChar c = false <-> stops c.
Proof.
  rewrite <- not_true_iff_false, urlChar_stops.
  unfold stops. destruct (isWhiteSpace c); [naive_solver|].
  destruct (decide (c = 34)), (decide (c = 39)), (decide (c = 41)),
    (decide (c = 93)); naive_solver.
Qed.

Lemma eat_app p s r : eat p s = Some r <-> s = p ++ r.
Proof.
  revert s; induction p as [|a p IH]; intros s; simpl.
  - naive_solver.
  - destruct s as [|b s]; [naive_solver|].
    destruct (N.eqb_spec a b) as [->|Hne].
    + rewrite IH. naive_solver.
    + naive_solver.
Qed.

Lemma run_spec s b r :
  run s = (b, r) <->
  s = b ++ r /\ Forall (fun c => ~ stops c) b /\ ended r.
Proof.
  revert b r; induction s as [|c s IH]; intros b r; simpl.
  - split.
    + intros [= <- <-]. by repeat split.
    + intros (H & _ & _). symmetry in H.
      apply app_eq_nil in H as [-> ->]. done.
  - destruct (urlChar c) eqn:Hc.
    + destruct (run s) as [b0 r0]. specialize (IH b0 r0).
      destruct IH as [IH _]. destruct (IH eq_refl) as (-> & Hb0 & Hr0).
      split.
      * intros [= <- <-]. repeat split; [|done].
        constructor; [by apply urlChar_stops | done].
      * intros (Hs & Hb & Hr).
        destruct b as [|c' b].
        { simpl in Hs. subst r. simpl in Hr.
          apply urlChar_false in Hr. congruence. }
        simpl in Hs. injection Hs as <- Hs.
        inversion Hb as [|? ? _ Hb']; subst.
        assert (b0 = b /\ r0 = r) as [-> ->]; [|done].
        clear -Hs Hb0 Hr0 Hb' Hr.
        revert b Hs Hb'; induction Hb0 as [|x b0 Hx Hb0 IH]; intros b Hs Hb'.
        { destruct b as [|y b]; [done|]. simpl in *. subst r0.
          inversion Hb'; subst. simpl in Hr0. done. }
        destruct b as [|y b].
        { simpl in *. subst r. simpl in Hr. done. }
        simpl in Hs. injection Hs as <- Hs. inversion Hb'; subst.
        destruct (IH b Hs) as [-> ->]; done.
    + split.
      * intros [= <- <-]. repeat split; [done|].
        simpl. by apply urlChar_false.
      * intros (Hs & Hb & Hr). destruct b as [|c' b].
        { simpl in Hs. by subst. }
        simpl in Hs. injection Hs as <- Hs. inversion Hb; subst.
        apply urlChar_stops in H1. congruence.
Qed.

Lemma tail_spec scheme s m r :
  tail scheme s = Some (m, r) <->
  exists body,
    body <> [] /\ Forall (fun c => ~ stops c) body /\ ended r /\
    m = scheme ++ SEP ++ body /\ s = SEP ++ body ++ r.
Proof.
  unfold tail. destruct (eat SEP s) as [s'|] eqn:He.
  - apply eat_app in He as ->.
    destruct (run s') as [b r'] eqn:Hr. pose proof Hr as Hr0.
    apply run_spec in Hr as (-> & Hb & Hend). split.
    + destruct b as [|c b]; [done|]. intros [= <- <-]. by exists (c :: b).
    + intros (body & Hne & Hbody & Hend' & -> & Heq).
      apply app_inv_head in Heq.
      assert (run (b ++ r') = (body, r)) as Hrun.
      { rewrite Heq. apply run_spec. done. }
      rewrite Hr0 in Hrun. injection Hrun as -> ->.
      destruct body; done.
  - split; [done|]. intros (body & _ & _ & _ & _ & ->).
    assert (eat SEP (SEP ++ body ++ r) = Some (body ++ r)) as E
      by by apply eat_app.
    congruence.
Qed.

Lemma matchHere_spec s m r : matchHere s = Some (m, r) <-> UrlAt s m r.
Proof.
  unfold matchHere, UrlAt, isScheme. split.
  - destruct (eat HTTP s) as [s1|] eqn:He; [|done].
    apply eat_app in He as ->.
    assert (tail HTTP s1 = Some (m, r) ->
            exists scheme body, (scheme = lit "http://" \/ scheme = lit "https://") /\
              body <> [] /\ Forall (fun c => ~ stops c) body /\ ended r /\
              m = scheme ++ body /\ HTTP ++ s1 = m ++ r) as Hplain.
    { intros (body & ? & ? & ? & -> & ->)%tail_spec.
      exists (lit "http://"), body. repeat split; auto. }
    destruct s1 as [|c s2]; [done|].
    destruct (N.eqb_spec c 115) as [->|Hc]; [|done].
    destruct (tail HTTPS s2) as [[m' r']|] eqn:Ht.
    + intros [= -> ->].
      apply tail_spec in Ht as (body & ? & ? & ? & -> & ->).
      exists (lit "https://"), body. repeat split; auto.
    + intros (body & _ & _ & _ & _ & [=])%tail_spec.
  - intros (scheme & body & [-> | ->] & Hne & Hb & Hr & -> & ->).
    + change (lit "http://" ++ body) with (HTTP ++ SEP ++ body).
      assert (eat HTTP ((HTTP ++ SEP ++ body) ++ r) = Some (SEP ++ body ++ r))
        as -> by (apply eat_app; by rewrite <- !app_assoc).
      assert (tail HTTP (SEP ++ body ++ r) = Some (HTTP ++ SEP ++ body, r))
        as Ht by (apply tail_spec; by exists body).
      simpl. simpl in Ht. done.
    + change (lit "https://" ++ body) with (HTTP ++ 115 :: SEP ++ body).
      assert (eat HTTP ((HTTP ++ 115 :: SEP ++ body) ++ r)
              = Some (115 :: SEP ++ body ++ r))
        as -> by (apply eat_app; by rewrite <- !app_assoc).
      assert (tail HTTPS (SEP ++ body ++ r) = Some (HTTPS ++ SEP ++ body, r))
        as Ht by (apply tail_spec; by exists body).
      simpl. simpl in Ht. by rewrite Ht.
Qed.

Lemma UrlAt_fun s m r m' r' :
  UrlAt s m r -> UrlAt s m' r' -> m = m' /\ r = r'.
Proof.
  intros H1%matchHere_spec H2%matchHere_spec. split; congruence.
Qed.

Lemma UrlAt_shorter s m r :
  UrlAt s m r -> (length r + 8 <= length s)%nat.
Proof.
  intros (scheme & body & Hs & Hne & _ & _ & -> & ->).
  rewrite !length_app. destruct body; [done|].
  destruct Hs as [-> | ->]; simpl; lia.
Qed.

Lemma exec_none s : exec s = None -> Scanned s [].
Proof.
  induction s as [|c s IH]; simpl.
  - intros _. constructor.
  - destruct (matchHere (c :: s)) as [[m r]|] eqn:Hm; [done|].
    intros Hs. apply scanned_skip; [|auto].
    intros m r Hu%matchHere_spec. congruence.
Qed.

Lemma exec_some s m r us :
  exec s = Some (m, r) -> Scanned r us -> Scanned s (m :: us).
Proof.
  intros He Hr. induction s as [|c s IH]; simpl in He; [done|].
  destruct (matchHere (c :: s)) as [[m' r']|] eqn:Hm.
  - injection He as -> ->. apply matchHere_spec in Hm.
    by apply scanned_url with r.
  - apply scanned_skip; [|auto].
    intros m' r' Hu%matchHere_spec. congruence.
Qed.

Lemma exec_shorter s m r :
  exec s = Some (m, r) -> (length r < length s)%nat.
Proof.
  induction s as [|c s IH]; simpl; [done|].
  destruct (matchHere (c :: s)) as [[m' r']|] eqn:Hm.
  - intros [= -> ->].
    apply matchHere_spec, UrlAt_shorter in Hm. simpl in Hm. lia.
  - intros H%IH. lia.
Qed.

(** With as many rounds as the text has characters the loop never runs
    out of fuel: what it returns is the full scan. *)
Lemma matchLoop_Scanned fuel s :
  (length s <= fuel)%nat -> Scanned s (matchLoop fuel s).
Proof.
  revert s; induction fuel as [|fuel IH]; intros s Hlen; simpl.
  - destruct s; [constructor | simpl in Hlen; lia].
  - destruct (exec s) as [[m r]|] eqn:He.
    + apply exec_some with r; [done|]. apply IH.
      apply exec_shorter in He. lia.
    + by apply exec_none.
Qed.

Lemma Scanned_fun s us us' : Scanned s us -> Scanned s us' -> us = us'.
Proof.
  intros H; revert us'.
  induction H as [|c s us Hno _ IH|s m r us Hu _ IH]; intros us' H'.
  - inversion H' as [| |s' m r us0 Hu _]; subst; [done|].
    apply UrlAt_shorter in Hu. simpl in Hu. lia.
  - inversion H' as [|c' s' us0 _ Hs|s' m r us0 Hu _]; subst; [auto|].
    by destruct (Hno m r).
  - inversion H' as [|c' s' us0 Hno Hs|s' m' r' us0 Hu' Hs]; subst.
    + apply UrlAt_shorter in Hu. simpl in Hu. lia.
    + by destruct (Hno m r).
    + destruct (UrlAt_fun _ _ _ _ _ Hu Hu') as [-> ->].
      f_equal. auto.
Qed.

Lemma extractUrls_loop text :
  extractUrls text = matchLoop (length text) text.
Proof.
  unfold extractUrls, stringMatch.
  by destruct (matchLoop (length text) text).
Qed.

Lemma extractUrls_Scanned text us :
  extractUrls text = us <-> Scanned text us.
Proof.
  rewrite extractUrls_loop. split.
  - intros <-. by apply matchLoop_Scanned.
  - intros H. eapply Scanned_fun; [|exact H]. by apply matchLoop_Scanned.
Qed.

End Pattern.

(** C5.  The scraper returns exactly the left-to-right, non-overlapping scan
    of the text for matches, a match being one of the two schemes followed
    by every character (one at least) up to the first white space or closing
    delimiter; a text has one scan only, so the result depends on the text
    alone and repeating the call repeats it; a text without URL gives the
    empty sequence and the two URLs of the sample sentence come out in their
    order. *)
Theorem extractUrls_scan :
  (forall text us, extractUrls text = us <-> Spec.Scanned text us) /\
  (forall text us us',
     Spec.Scanned text us -> Spec.Scanned text us' -> us = us') /\
  extractUrls (lit "no urls here") = [] /\
  extractUrls (lit "see https://a.example/x and https://b.example/y?q=1")
  = [lit "https://a.example/x"; lit "https://b.example/y?q=1"].
Proof.
  split; [exact extractUrls_Scanned|].
  split; [exact Scanned_fun|]. split; reflexivity.
Qed.

(** ** Path classifier and bearer gate *)
Section Gate.
Import Spec.

Lemma OPEN_PATHS_EXACT_elem p :
  p ∈ OPEN_PATHS_EXACT <->
  p = lit "/oauth/callback" \/ p = lit "/auth/callback" \/
  p = lit "/callback".
Proof. unfold OPEN_PATHS_EXACT. set_solver. Qed.

Lemma isOpenPath_true p :
  isOpenPath p = true <->
  p ∈ OPEN_PATHS_EXACT \/
  (exists s, p = lit "/oauth/" ++ s) \/ (exists s, p = lit "/auth/" ++ s).
Proof.
  unfold isOpenPath. rewrite <- !startsWith_app.
  case_bool_decide; [tauto|].
  destruct (startsWith (lit "/oauth/") p); [tauto|].
  destruct (startsWith (lit "/auth/") p); [tauto|].
  split; [done | intros [?|[?|?]]; done].
Qed.

Lemma authGate_closed token req :
  isOpenPath (path req) = false ->
  authGate token req =
    if bool_decide (authorization req = Some (lit "Bearer " ++ token))
    then Next else Done unauthorized.
Proof.
  intros Hc. unfold authGate. rewrite Hc.
  destruct (authorization req) as [[|c a]|]; simpl or_default.
  - rewrite (proj2 (str_eqb_neq _ _)) by done.
    by rewrite bool_decide_eq_false_2.
  - unfold str_eqb. case_bool_decide as H.
    + rewrite bool_decide_eq_true_2; [done | by rewrite H].
    + rewrite bool_decide_eq_false_2; [done | congruence].
  - rewrite (proj2 (str_eqb_neq _ _)) by done.
    by rewrite bool_decide_eq_false_2.
Qed.

Lemma authGate_open token req :
  isOpenPath (path req) = true -> authGate token req = Next.
Proof. intros Ho. unfold authGate. by rewrite Ho. Qed.

(** The revision with a version route opens what [isOpenPath] opens and
    the two named paths, and nothing else; the health path with a trailing
    slash stays closed for it too. *)
Lemma Versioned_isOpenPath_true p :
  Versioned.isOpenPath p = true <->
  isOpenPath p = true \/ p = lit "/healthz" \/ p = lit "/__version".
Proof.
  unfold Versioned.isOpenPath, isOpenPath.
  case_bool_decide; [tauto|].
  destruct (startsWith (lit "/oauth/") p); [tauto|].
  destruct (startsWith (lit "/auth/") p); [tauto|].
  destruct (str_eqb p (lit "/healthz")) eqn:Hh.
  { apply str_eqb_eq in Hh. tauto. }
  destruct (str_eqb p (lit "/__version")) eqn:Hv.
  { apply str_eqb_eq in Hv. tauto. }
  apply str_eqb_neq in Hh, Hv. naive_solver.
Qed.

Lemma Versioned_trailing_slash :
  Versioned.isOpenPath (lit "/healthz/") = false.
Proof. by vm_compute. Qed.

End Gate.

(** C3.  The classifier answers from the path alone: a path is open exactly
    when it is one of the three exact callback paths or begins with
    [/oauth/] or with [/auth/]; on every other path the gate lets a request
    through only with the credential. *)
Theorem isOpenPath_rules (p : jsstring) :
  (isOpenPath p = true <->
     p ∈ OPEN_PATHS_EXACT \/
     (exists s, p = lit "/oauth/" ++ s) \/ (exists s, p = lit "/auth/" ++ s)) /\
  (p ∈ OPEN_PATHS_EXACT <->
     p = lit "/oauth/callback" \/ p = lit "/auth/callback" \/
     p = lit "/callback") /\
  (isOpenPath p = false ->
     forall token m h,
       authGate token {| method := m; path := p; authorization := h |} = Next
       <-> h = Some (lit "Bearer " ++ token)).
Proof.
  split; [apply isOpenPath_true|]. split; [apply OPEN_PATHS_EXACT_elem|].
  intros Hc token m h. rewrite authGate_closed by done. simpl.
  case_bool_decide; naive_solver.
Qed.

(** C2.  On a path that is not open the gate answers 401 with a JSON body
    that has an [error] field exactly when the Authorization header is not,
    character for character, [Bearer ] followed by the token (an absent
    header is a mismatch); with exactly that header it calls [next()]. *)
Theorem authGate_exact_bearer (token : jsstring) (req : Request) :
  isOpenPath (path req) = false ->
  ((exists body,
      authGate token req = Done (Respond 401 body) /\
      is_Some (field "error" body))
   <-> authorization req <> Some (lit "Bearer " ++ token)) /\
  (authorization req = Some (lit "Bearer " ++ token) ->
   authGate token req = Next).
Proof.
  intros Hc. rewrite authGate_closed by done.
  case_bool_decide as H; split.
  - split; [intros (body & [=] & _) | done].
  - done.
  - split; [done|]. intros _. eexists. split; [reflexivity|]. by eexists.
  - done.
Qed.

Lemma authGate_exact_bearer_witness :
  let token := lit "s3cret" in
  let req := Sample.request POST "/mcp" (Some "bearer s3cret") in
  isOpenPath (path req) = false /\
  ((exists body,
      authGate token req = Done (Respond 401 body) /\
      is_Some (field "error" body))
   <-> authorization req <> Some (lit "Bearer " ++ token)) /\
  (authorization req = Some (lit "Bearer " ++ token) ->
   authGate token req = Next).
Proof.
  intros token req. split; [by vm_compute|].
  apply (authGate_exact_bearer token req). by vm_compute.
Defined.

(** ** Route table *)
Section Routes.
Variable cfg : Config.

(** Whatever the request, the gateway answers with one of five things. *)
Lemma app_cases c req :
  app cfg c req = healthy \/ app cfg c req = unauthorized \/
  app cfg c req = loginLink c \/
  app cfg c req = Proxied true \/ app cfg c req = Proxied false.
Proof.
  unfold app, layers, dispatch, layerMatch, handler, authGate.
  change (mountMatch (lit "/") (path req)) with true. cbv iota.
  repeat case_match; simplify_eq; auto.
Qed.

Lemma loginLink_not_401 c body : loginLink c <> Respond 401 body.
Proof. unfold loginLink, noLinkYet. by case_match. Qed.

Lemma app_open_not_401 c req body :
  isOpenPath (path req) = true -> app cfg c req <> Respond 401 body.
Proof.
  intros Ho. pose proof (loginLink_not_401 c body).
  unfold app, layers, dispatch, layerMatch, handler.
  rewrite authGate_open by done.
  change (mountMatch (lit "/") (path req)) with true. cbv iota.
  repeat case_match; done.
Qed.

(** The health routes stand in front of the gate. *)
Lemma app_health c req :
  method req = GET ->
  path req = lit "/healthz" \/ path req = lit "/healthz/" ->
  app cfg c req = healthy.
Proof.
  destruct req as [m p h]; simpl. intros -> [-> | ->]; reflexivity.
Qed.

(** Behind the health routes and the gate stands the login-link route. *)
Lemma app_login_link c req :
  method req = GET ->
  path req = lit "/login-link" ->
  authorization req = Some (lit "Bearer " ++ STATIC_BEARER_TOKEN cfg) ->
  app cfg c req = loginLink c.
Proof.
  destruct req as [m p h]; simpl. intros -> -> ->.
  unfold app, layers, dispatch, layerMatch, handler.
  rewrite authGate_closed by reflexivity. simpl authorization.
  rewrite bool_decide_eq_true_2 by done. reflexivity.
Qed.

(** A request that the health routes do not take and whose path is not
    open is answered 401 exactly when its header is not the expected
    one. *)
Lemma app_closed c req :
  servesGet (method req) && routeMatch (lit "/healthz") (path req) = false ->
  isOpenPath (path req) = false ->
  app cfg c req = unauthorized <->
  authorization req <> Some (lit "Bearer " ++ STATIC_BEARER_TOKEN cfg).
Proof.
  intros Hh Hc. pose proof (loginLink_not_401 c) as Hl.
  unfold app, layers, dispatch, layerMatch, handler.
  change (routeMatch (lit "/healthz/") (path req))
    with (routeMatch (lit "/healthz") (path req)).
  rewrite Hh, authGate_closed by done.
  change (mountMatch (lit "/") (path req)) with true. cbv iota.
  case_bool_decide as Ha.
  - split; [|done]. unfold unauthorized. repeat case_match; try done.
    intros E. by destruct (Hl _ E).
  - done.
Qed.

End Routes.

(** C1 (as the code has it).  The classifier is true on the exact callback
    paths and on every path under [/oauth/] or [/auth/], and a request to
    such a path, whatever its method and Authorization header, passes the
    gate and is never answered 401 by the gateway.  The health path and its
    trailing-slash variant are not open for the classifier: GET requests to
    them are answered [{ok: true}] by the routes registered in front of the
    gate, whatever the header. *)
Theorem open_paths_bypass_gate (cfg : Config) (c : Cache) (req : Request) :
  (path req ∈ OPEN_PATHS_EXACT \/
   (exists s, path req = lit "/oauth/" ++ s) \/
   (exists s, path req = lit "/auth/" ++ s) ->
   isOpenPath (path req) = true /\
   authGate (STATIC_BEARER_TOKEN cfg) req = Next /\
   forall body, app cfg c req <> Respond 401 body) /\
  (path req = lit "/healthz" \/ path req = lit "/healthz/" ->
   isOpenPath (path req) = false /\
   (method req = GET -> app cfg c req = healthy)).
Proof.
  split.
  - intros Ho%isOpenPath_true. split; [done|]. split.
    + by apply authGate_open.
    + intros body. by apply app_open_not_401.
  - intros Hp. split.
    + destruct Hp as [-> | ->]; by vm_compute.
    + intros Hm. by apply app_health.
Qed.

Lemma open_paths_bypass_gate_witness :
  (isOpenPath (lit "/oauth/callback") = true /\
   forall body,
     app Sample.config noLink (Sample.request GET "/oauth/callback" None)
     <> Respond 401 body) /\
  (isOpenPath (lit "/healthz/") = false /\
   app Sample.config noLink (Sample.request GET "/healthz/" None) = healthy).
Proof.
  split.
  - destruct (open_paths_bypass_gate Sample.config noLink
                (Sample.request GET "/oauth/callback" None)) as [H _].
    destruct H as (Ho & _ & Hn); [|by split].
    left. apply OPEN_PATHS_EXACT_elem. by left.
  - destruct (open_paths_bypass_gate Sample.config noLink
                (Sample.request GET "/healthz/" None)) as [_ H].
    destruct H as [Hc Hg]; [by right|]. split; [exact Hc | by apply Hg].
Defined.

(** C1, as written, fails on the health path: it belongs to the open set of
    the specification, the classifier is false on it, and a POST to it
    without credential is answered 401. *)
Lemma healthz_not_open_path :
  Spec.inOpenSet (lit "/healthz") /\
  isOpenPath (lit "/healthz") = false /\
  app Sample.config noLink (Sample.request POST "/healthz" None)
  = Respond 401 (JObj [("error"%string, JStr (lit "Unauthorized"))]).
Proof. split; [by left|]. split; by vm_compute. Qed.

(** ** Configuration *)
Section Configuration.
Import Spec.
Variable e : env.

Lemma missing_or_given name :
  missing e name \/ exists v, given e name v.
Proof.
  unfold missing, given. destruct (e !! name) as [[|c v]|]; eauto.
Qed.

Lemma missing_not_given name v : missing e name -> ~ given e name v.
Proof.
  unfold missing, given. intros [Hm | Hm] [Hg Hv]; [congruence|].
  apply Hv. congruence.
Qed.

Lemma requireEnv_given name v : given e name v -> requireEnv e name = Ok v.
Proof.
  unfold given, requireEnv. intros [-> Hv]. by destruct v.
Qed.

Lemma requireEnv_missing name :
  missing e name ->
  requireEnv e name = Throw ("Missing required env var: " ++ name)%string.
Proof. unfold missing, requireEnv. by intros [-> | ->]. Qed.

Lemma or_default_given name v d :
  given e name v -> or_default (e !! name) d = v.
Proof. unfold given. intros [-> Hv]. by destruct v. Qed.

Lemma or_default_missing name d :
  missing e name -> or_default (e !! name) d = d.
Proof. unfold missing. by intros [-> | ->]. Qed.

Lemma loadConfig_throws :
  (exists msg, loadConfig e = Throw msg) <->
  missing e "PUBLIC_BASE_URL" \/ missing e "STATIC_BEARER_TOKEN".
Proof.
  unfold loadConfig.
  destruct (missing_or_given "PUBLIC_BASE_URL") as [Hb | [b Hb]];
    destruct (missing_or_given "STATIC_BEARER_TOKEN") as [Ht | [t Ht]];
    rewrite ?(requireEnv_missing _ Hb), ?(requireEnv_given _ _ Hb); simpl;
    rewrite ?(requireEnv_missing _ Ht), ?(requireEnv_given _ _ Ht); simpl.
  all: try (split; by eauto).
  split; [by intros [msg [=]] |].
  intros [H | H]; by eapply missing_not_given in H.
Qed.

Lemma loadConfig_upstream cfg :
  loadConfig e = Ok cfg ->
  ROVO_MCP_URL cfg =
    or_default (e !! "ROVO_MCP_URL"%string)
      (or_default (e !! "ROVO_MCP_SSE_URL"%string) DEFAULT_MCP_URL).
Proof.
  unfold loadConfig.
  destruct (requireEnv e "PUBLIC_BASE_URL"); [simpl | done].
  destruct (requireEnv e "STATIC_BEARER_TOKEN"); [simpl | done].
  by intros [= <-].
Qed.

End Configuration.

(** C7 (as the code has it).  The upstream endpoint URL is optional: it is
    taken from [ROVO_MCP_URL], else from the legacy [ROVO_MCP_SSE_URL], else
    it is the built-in default, and reading the configuration fails exactly
    when [PUBLIC_BASE_URL] or [STATIC_BEARER_TOKEN] is missing. *)
Theorem upstream_url_falls_back (e : env) :
  ((exists msg, loadConfig e = Throw msg) <->
   Spec.missing e "PUBLIC_BASE_URL" \/ Spec.missing e "STATIC_BEARER_TOKEN") /\
  (forall cfg, loadConfig e = Ok cfg ->
     (forall v, Spec.given e "ROVO_MCP_URL" v -> ROVO_MCP_URL cfg = v) /\
     (Spec.missing e "ROVO_MCP_URL" ->
      forall v, Spec.given e "ROVO_MCP_SSE_URL" v -> ROVO_MCP_URL cfg = v) /\
     (Spec.missing e "ROVO_MCP_URL" -> Spec.missing e "ROVO_MCP_SSE_URL" ->
      ROVO_MCP_URL cfg = DEFAULT_MCP_URL)).
Proof.
  split; [apply loadConfig_throws|].
  intros cfg ->%loadConfig_upstream. repeat split.
  - intros v Hv. by rewrite (or_default_given _ _ _ _ Hv).
  - intros Hm v Hv.
    by rewrite (or_default_missing _ _ _ Hm), (or_default_given _ _ _ _ Hv).
  - intros Hm Hl.
    by rewrite (or_default_missing _ _ _ Hm), (or_default_missing _ _ _ Hl).
Qed.

Lemma upstream_url_falls_back_witness :
  exists cfg,
    loadConfig Sample.legacyEnv = Ok cfg /\
    ROVO_MCP_URL cfg = lit "https://mcp.atlassian.com/v1/sse".
Proof.
  eexists. split; [by vm_compute|].
  destruct (upstream_url_falls_back Sample.legacyEnv) as [_ H].
  destruct (H _ eq_refl) as (_ & Hlegacy & _).
  apply Hlegacy; [by left | by split].
Defined.

(** C7, as written, fails: with the two required variables set and the
    upstream URL given under neither name the configuration is read without
    error and the URL is the default. *)
Lemma upstream_url_not_required :
  Spec.missing Sample.bareEnv "ROVO_MCP_URL" /\
  Spec.missing Sample.bareEnv "ROVO_MCP_SSE_URL" /\
  loadConfig Sample.bareEnv = Ok Sample.config /\
  ROVO_MCP_URL Sample.config = lit "https://mcp.atlassian.com/v1/mcp".
Proof.
  split; [left; by vm_compute|]. split; [left; by vm_compute|].
  split; by vm_compute.
Qed.

(** ** Login-link cache *)
Section Capture.
Import Spec.

Lemma capture_url_free c chunk now :
  extractUrls chunk = [] -> capture c chunk now = c.
Proof. unfold capture. by intros ->. Qed.

Lemma capture_last c chunk now us u :
  extractUrls chunk = us ++ [u] ->
  capture c chunk now =
    {| latestLoginUrl := Some u; latestLoginUrlSeenAt := Some now |}.
Proof.
  unfold capture. intros ->. rewrite length_app. simpl.
  replace (0 <? length us + 1)%nat with true
    by (symmetry; apply Nat.ltb_lt; lia).
  replace (length us + 1 - 1)%nat with (length us) by lia.
  by rewrite list_lookup_middle.
Qed.

Lemma capture_bears c chunk now :
  extractUrls chunk <> [] ->
  exists u, In u (extractUrls chunk) /\
    capture c chunk now =
      {| latestLoginUrl := Some u; latestLoginUrlSeenAt := Some now |}.
Proof.
  intros Hne.
  destruct (exists_last Hne) as (us & u & Hl).
  exists u. split.
  - rewrite Hl. apply in_or_app. right. by left.
  - by apply capture_last with us.
Qed.

Lemma capture_paired c chunk now : paired c -> paired (capture c chunk now).
Proof.
  intros Hc. destruct (extractUrls chunk) as [|u0 us0] eqn:Hu.
  - by rewrite capture_url_free.
  - destruct (capture_bears c chunk now) as (u & _ & ->); [by rewrite Hu|].
    unfold paired; simpl. split; discriminate.
Qed.

(** A match is never the empty string. *)
Lemma extractUrls_nonempty text u : In u (extractUrls text) -> u <> [].
Proof.
  assert (forall s us, Scanned s us -> In u us -> u <> []) as H.
  { intros s us Hs. induction Hs as [| |s m r us Hm _ IH]; [done|done|].
    intros [<- | Hin]; [|auto].
    destruct Hm as (scheme & body & _ & Hb & _ & _ & -> & _).
    intros [_ ?]%app_eq_nil. done. }
  apply (H text), extractUrls_Scanned. done.
Qed.

End Capture.

(** ** Event loop *)
Section EventLoop.
Import Spec.
Variable cfg : Config.

Lemma run_exited status es :
  run cfg (Exited status) es = (Exited status, []).
Proof. induction es as [|e es IH]; simpl; [done|]. by rewrite IH. Qed.

Lemma run_cons p e es :
  run cfg p (e :: es) =
    (fst (run cfg (fst (step cfg p e)) es),
     snd (step cfg p e) ++ snd (run cfg (fst (step cfg p e)) es)).
Proof.
  simpl. destruct (step cfg p e) as [p1 o1]. simpl.
  by destruct (run cfg p1 es).
Qed.

Lemma run_app p es1 es2 :
  run cfg p (es1 ++ es2) =
    (fst (run cfg (fst (run cfg p es1)) es2),
     snd (run cfg p es1) ++ snd (run cfg (fst (run cfg p es1)) es2)).
Proof.
  revert p; induction es1 as [|e es1 IH]; intros p.
  - simpl. by destruct (run cfg p es2).
  - rewrite <- app_comm_cons, !run_cons, IH. simpl. by rewrite app_assoc.
Qed.

(** A process that still runs at the end ran all along. *)
Lemma run_running p es c :
  fst (run cfg p es) = Running c -> exists c0, p = Running c0.
Proof.
  destruct p as [c0|status]; [eauto|]. by rewrite run_exited.
Qed.

Lemma step_running c e c' :
  fst (step cfg (Running c) e) = Running c' ->
  (exists chunk now, isData e chunk now /\ c' = capture c chunk now) \/
  (exists req, e = Incoming req /\ c' = c).
Proof.
  destruct e as [chunk now|chunk now|code|req]; simpl; intros [= <-].
  - left. exists chunk, now. split; [by left | done].
  - left. exists chunk, now. split; [by right | done].
  - right. by exists req.
Qed.

Lemma step_url_free c e c' :
  urlFree e -> fst (step cfg (Running c) e) = Running c' -> c' = c.
Proof.
  intros Hf [(chunk & now & [-> | ->] & ->) | (req & -> & ->)]%step_running;
    simpl in Hf; [| |done]; by apply capture_url_free.
Qed.

Lemma run_url_free es c0 c :
  Forall urlFree es -> fst (run cfg (Running c0) es) = Running c -> c = c0.
Proof.
  intros Hf; revert c0; induction Hf as [|e es He _ IH]; intros c0.
  - simpl. by intros [= <-].
  - rewrite run_cons. cbn [fst]. intros Hr.
    destruct (run_running _ _ _ Hr) as [c1 Hc1]. rewrite Hc1 in Hr.
    apply IH in Hr as ->. by apply step_url_free with e.
Qed.

Lemma step_paired c e c' :
  paired c -> fst (step cfg (Running c) e) = Running c' -> paired c'.
Proof.
  intros Hc [(chunk & now & _ & ->) | (req & _ & ->)]%step_running;
    [by apply capture_paired | done].
Qed.

Lemma run_paired es c0 c :
  paired c0 -> fst (run cfg (Running c0) es) = Running c -> paired c.
Proof.
  revert c0; induction es as [|e es IH]; intros c0 Hc0.
  - simpl. by intros [= <-].
  - rewrite run_cons. cbn [fst]. intros Hr.
    destruct (run_running _ _ _ Hr) as [c1 Hc1]. rewrite Hc1 in Hr.
    apply (IH c1); [|done]. by apply step_paired with c0 e.
Qed.

Lemma capture_holds c chunk now : holds c -> holds (capture c chunk now).
Proof.
  intros Hc. destruct (extractUrls chunk) as [|u0 us0] eqn:Hu.
  - by rewrite capture_url_free.
  - destruct (capture_bears c chunk now) as (u & Hin & ->); [by rewrite Hu|].
    exists u, now. split; [by apply extractUrls_nonempty with chunk | done].
Qed.

Lemma run_holds es c0 c :
  holds c0 -> fst (run cfg (Running c0) es) = Running c -> holds c.
Proof.
  revert c0; induction es as [|e es IH]; intros c0 Hc0.
  - simpl. by intros [= <-].
  - rewrite run_cons. cbn [fst]. intros Hr.
    destruct (run_running _ _ _ Hr) as [c1 Hc1]. rewrite Hc1 in Hr.
    apply (IH c1); [|done].
    apply step_running in Hc1
      as [(chunk & now & _ & ->) | (req & _ & ->)];
      [by apply capture_holds | done].
Qed.

Lemma run_bears es c0 c :
  Exists bearsUrl es -> fst (run cfg (Running c0) es) = Running c -> holds c.
Proof.
  intros Hex; revert c0; induction Hex as [e es He|e es _ IH]; intros c0;
    rewrite run_cons; cbn [fst]; intros Hr;
    destruct (run_running _ _ _ Hr) as [c1 Hc1]; rewrite Hc1 in Hr.
  - apply run_holds with es c1; [|done].
    destruct e as [chunk now|chunk now|code|req]; simpl in He; try done;
      simpl in Hc1; injection Hc1 as <-;
      destruct (capture_bears c0 chunk now He) as (u & Hin & ->);
      exists u, now; (split; [by apply extractUrls_nonempty with chunk|done]).
  - by apply IH with c1.
Qed.

Lemma loginLink_holds u t :
  u <> [] ->
  loginLink {| latestLoginUrl := Some u; latestLoginUrlSeenAt := Some t |}
  = Respond 200 (linkBody u t).
Proof. intros Hu. unfold loginLink. simpl. by destruct u. Qed.

Lemma loginLink_ok c body :
  paired c -> loginLink c = Respond 200 body ->
  exists u t,
    latestLoginUrl c = Some u /\ latestLoginUrlSeenAt c = Some t /\
    body = linkBody u t.
Proof.
  intros Hp. unfold loginLink, noLinkYet.
  destruct c as [[[|x u]|] seen]; simpl; try done.
  intros [= <-]. destruct seen as [t|].
  - by exists (x :: u), t.
  - unfold paired in Hp; simpl in Hp. destruct Hp as [_ Hp].
    by specialize (Hp eq_refl).
Qed.

(** What the gateway sends with status 200 is the health body or, when
    the two fields are paired, a full link body. *)
Lemma app_ok c req body :
  paired c -> app cfg c req = Respond 200 body ->
  body = JObj [("ok"%string, JBool true)] \/
  exists u t, body = linkBody u t.
Proof.
  intros Hp Ha.
  destruct (app_cases cfg c req) as [H|[H|[H|[H|H]]]]; rewrite H in Ha.
  - injection Ha as <-. by left.
  - done.
  - apply loginLink_ok in Ha as (u & t & _ & _ & ->); [|done]. right. eauto.
  - done.
  - done.
Qed.

Lemma run_sends es c0 req body :
  paired c0 ->
  In (Send req (Respond 200 body)) (snd (run cfg (Running c0) es)) ->
  body = JObj [("ok"%string, JBool true)] \/
  exists u t, body = linkBody u t.
Proof.
  revert c0; induction es as [|e es IH]; intros c0 Hc0; [done|].
  rewrite run_cons. cbn [snd]. intros [Hin|Hin]%in_app_or.
  - destruct e as [chunk now|chunk now|code|req']; simpl in Hin;
      destruct Hin as [Hin|[]]; try done.
    injection Hin as -> Hin. by apply app_ok with c0 req.
  - revert Hin.
    destruct (fst (step cfg (Running c0) e)) as [c1|status] eqn:Hs.
    + apply (IH c1). by apply step_paired with c0 e.
    + by rewrite run_exited.
Qed.

End EventLoop.

(** C4.  Whatever was fed before, once a chunk in which the scraper finds
    URLs has been fed, and only URL-free events after it, the cache holds
    the last URL of that chunk, with the time of that chunk: earlier matches
    of the chunk and everything of earlier chunks is gone.  Two chunks with
    one URL each are the case of one event before and none after. *)
Theorem capture_last_write_wins (cfg : Config) (c0 c : Cache)
    (pre post : list Event) (e : Event) (chunk now : jsstring)
    (us : list jsstring) (u : jsstring) :
  Spec.isData e chunk now ->
  extractUrls chunk = us ++ [u] ->
  Forall Spec.urlFree post ->
  fst (run cfg (Running c0) (pre ++ e :: post)) = Running c ->
  c = {| latestLoginUrl := Some u; latestLoginUrlSeenAt := Some now |}.
Proof.
  intros He Hu Hpost. rewrite run_app. cbn [fst]. rewrite run_cons. cbn [fst].
  intros Hr.
  destruct (run_running _ _ _ _ Hr) as [c2 Hc2]. rewrite Hc2 in Hr.
  apply run_url_free in Hr as ->; [|done].
  destruct (fst (run cfg (Running c0) pre)) as [c1|status]; [|done].
  destruct He as [-> | ->]; simpl in Hc2; injection Hc2 as <-;
    by apply capture_last with us.
Qed.

Lemma capture_last_write_wins_witness :
  let first := StdoutData Sample.loginChunk (lit "2026-01-05T10:00:00.000Z") in
  let second := StderrData Sample.retryChunk (lit "2026-01-05T10:00:07.500Z") in
  extractUrls Sample.loginChunk = [lit "https://id.example/auth?state=1"] /\
  extractUrls Sample.retryChunk
  = [lit "https://id.example/old"; lit "https://id.example/auth?state=2"] /\
  exists c,
    fst (run Sample.config (Running noLink) [first; second]) = Running c /\
    c = {| latestLoginUrl := Some (lit "https://id.example/auth?state=2");
           latestLoginUrlSeenAt := Some (lit "2026-01-05T10:00:07.500Z") |}.
Proof.
  intros first second. split; [reflexivity|]. split; [reflexivity|].
  eexists. split; [by vm_compute|].
  apply (capture_last_write_wins Sample.config noLink _ [first] [] second
           Sample.retryChunk (lit "2026-01-05T10:00:07.500Z")
           [lit "https://id.example/old"]
           (lit "https://id.example/auth?state=2")).
  - by right.
  - reflexivity.
  - constructor.
  - reflexivity.
Defined.

(** C10.  A chunk in which the scraper finds no URL leaves both fields of
    the cache as they were, on either stream: the chunk is echoed and
    nothing else happens. *)
Theorem url_free_chunk_keeps_cache (cfg : Config) (c : Cache)
    (chunk now : jsstring) :
  extractUrls chunk = [] ->
  capture c chunk now = c /\
  step cfg (Running c) (StdoutData chunk now)
  = (Running c, [WriteStdout chunk]) /\
  step cfg (Running c) (StderrData chunk now)
  = (Running c, [WriteStderr chunk]).
Proof.
  intros Hu. simpl. by rewrite capture_url_free.
Qed.

Lemma url_free_chunk_keeps_cache_witness :
  let chunk := lit "Waiting for authorization (no link yet) ..." in
  let now := lit "2026-01-05T10:03:00.000Z" in
  extractUrls chunk = [] /\
  capture Sample.held chunk now = Sample.held /\
  step Sample.config (Running Sample.held) (StdoutData chunk now)
  = (Running Sample.held, [WriteStdout chunk]) /\
  step Sample.config (Running Sample.held) (StderrData chunk now)
  = (Running Sample.held, [WriteStderr chunk]).
Proof.
  intros chunk now. split; [reflexivity|].
  apply (url_free_chunk_keeps_cache Sample.config Sample.held chunk now).
  reflexivity.
Defined.

(** C9.  The two fields of the cache are null together: so at the start, so
    after every callback, so in every state the gateway reaches; hence every
    200 answer of the login-link handler, and every 200 answer with a
    [login_url] that the gateway ever sends, carries the URL and its time as
    strings. *)
Theorem cache_fields_paired (cfg : Config) :
  Spec.paired noLink /\
  (forall c e c',
     Spec.paired c -> fst (step cfg (Running c) e) = Running c' ->
     Spec.paired c') /\
  (forall es c,
     fst (run cfg (Running noLink) es) = Running c ->
     Spec.paired c /\
     forall body,
       loginLink c = Respond 200 body ->
       exists u t,
         latestLoginUrl c = Some u /\ latestLoginUrlSeenAt c = Some t /\
         body = Spec.linkBody u t) /\
  (forall es req body,
     In (Send req (Respond 200 body)) (snd (run cfg (Running noLink) es)) ->
     is_Some (field "login_url" body) ->
     exists u t, body = Spec.linkBody u t).
Proof.
  assert (Spec.paired noLink) as H0 by done.
  split; [done|]. split; [|split].
  - intros c e c' Hc Hs. by apply step_paired with cfg c e.
  - intros es c Hr.
    assert (Spec.paired c) as Hc by by apply run_paired with cfg es noLink.
    split; [done|]. intros body. by apply loginLink_ok.
  - intros es req body Hin Hf.
    apply run_sends in Hin as [-> | H]; [|done|done].
    by destruct Hf as [v [=]].
Qed.

Lemma cache_fields_paired_witness :
  let es := [Incoming (Sample.request GET "/login-link" (Some "Bearer s3cret"));
             StdoutData Sample.loginChunk (lit "2026-01-05T10:00:00.000Z");
             Incoming (Sample.request GET "/login-link" (Some "Bearer s3cret"))]
  in
  exists c,
    fst (run Sample.config (Running noLink) es) = Running c /\
    Spec.paired c /\
    forall body,
      loginLink c = Respond 200 body ->
      exists u t,
        latestLoginUrl c = Some u /\ latestLoginUrlSeenAt c = Some t /\
        body = Spec.linkBody u t.
Proof.
  intros es. eexists. split; [by vm_compute|].
  destruct (cache_fields_paired Sample.config) as (_ & _ & H & _).
  apply (H es). reflexivity.
Defined.

(** C8.  A GET of [/login-link] with the right credential is answered from
    the cache.  As long as no chunk has brought a URL the answer is 404 with
    an [error] and the [hint] to call [/mcp] first; once one has, it is 200
    with the cached URL and its time, as they are. *)
Theorem login_link_answer (cfg : Config) (es : list Event) (c : Cache)
    (req : Request) :
  fst (run cfg (Running noLink) es) = Running c ->
  method req = GET ->
  path req = lit "/login-link" ->
  authorization req = Some (lit "Bearer " ++ STATIC_BEARER_TOKEN cfg) ->
  (Forall Spec.urlFree es ->
   c = noLink /\
   app cfg c req =
     Respond 404
       (JObj [("error"%string, JStr (lit "No login link captured yet."));
              ("hint"%string,
               JStr (lit "Trigger an MCP connection attempt (call /mcp with your static bearer token), then retry /login-link."))])) /\
  (Exists Spec.bearsUrl es ->
   exists u t,
     latestLoginUrl c = Some u /\ latestLoginUrlSeenAt c = Some t /\
     app cfg c req =
       Respond 200
         (JObj [("login_url"%string, JStr u); ("seen_at"%string, JStr t)])).
Proof.
  intros Hr Hm Hp Ha. rewrite app_login_link by done. split.
  - intros Hf. apply run_url_free in Hr as ->; done.
  - intros Hex. apply run_bears in Hr as (u & t & Hu & ->); [|done].
    exists u, t. repeat split. by apply loginLink_holds.
Qed.

Lemma login_link_answer_witness :
  let req := Sample.request GET "/login-link" (Some "Bearer s3cret") in
  let seen := lit "2026-01-05T10:00:00.000Z" in
  app Sample.config noLink req = noLinkYet /\
  exists c,
    fst (run Sample.config (Running noLink) [StdoutData Sample.loginChunk seen])
    = Running c /\
    exists u t,
      latestLoginUrl c = Some u /\ latestLoginUrlSeenAt c = Some t /\
      app Sample.config c req =
        Respond 200
          (JObj [("login_url"%string, JStr u); ("seen_at"%string, JStr t)]).
Proof.
  intros req seen. split.
  - apply (login_link_answer Sample.config [] noLink req); try reflexivity.
    constructor.
  - eexists. split; [by vm_compute|].
    apply (login_link_answer Sample.config
             [StdoutData Sample.loginChunk seen] _ req); try reflexivity.
    constructor. by vm_compute.
Defined.

(** ** The log line of the exit callback *)
Section ExitLine.
Import Decimal.

Lemma lit_String a s : lit (String a s) = N_of_ascii a :: lit s.
Proof. reflexivity. Qed.

Lemma readDigits_cons acc c s :
  readDigits acc (c :: s) =
    if isDigit c then readDigits (10 * acc + (c - 48)) s else None.
Proof. reflexivity. Qed.

Ltac digit IH :=
  rewrite lit_String, readDigits_cons;
  match goal with
  | |- context [N_of_ascii ?a] =>
      let v := eval vm_compute in (N_of_ascii a) in
      change (N_of_ascii a) with v
  end;
  match goal with
  | |- context [isDigit ?c] => change (isDigit c) with true
  end;
  cbv iota; rewrite <- IH; f_equal; lia.

Lemma readDigits_acc l acc :
  readDigits (N.pos acc) (lit (NilEmpty.string_of_uint l))
  = Some (N.pos (Pos.of_uint_acc l acc)).
Proof.
  revert acc; induction l as [|l IH|l IH|l IH|l IH|l IH|l IH|l IH|l IH|l IH|l IH];
    intros acc; cbn [NilEmpty.string_of_uint Pos.of_uint_acc];
    [done | digit IH ..].
Qed.

Lemma readDigits_uint l :
  readDigits 0 (lit (NilEmpty.string_of_uint l)) = Some (Pos.of_uint l).
Proof.
  induction l as [|l IH|l|l|l|l|l|l|l|l|l];
    cbn [NilEmpty.string_of_uint Pos.of_uint]; [done | ..].
  { rewrite lit_String, readDigits_cons. exact IH. }
  all: rewrite lit_String, readDigits_cons;
    match goal with
    | |- context [N_of_ascii ?a] =>
        let v := eval vm_compute in (N_of_ascii a) in
        change (N_of_ascii a) with v
    end;
    match goal with
    | |- context [isDigit ?c] => change (isDigit c) with true
    end;
    cbv iota; rewrite <- readDigits_acc; f_equal.
Qed.

(** The text of a code is its decimal numeral: read back, it gives the
    code. *)
Lemma show_code_decimal n : readDecimal (show_code (Some n)) = Some n.
Proof.
  unfold show_code, readDecimal.
  destruct (lit (NilEmpty.string_of_uint (N.to_uint n))) as [|c s] eqn:Hs.
  - destruct n as [|p]; [done|]. simpl in Hs.
    pose proof (Unsigned.to_uint_nonnil p) as Hp.
    by destruct (Pos.to_uint p).
  - rewrite <- Hs, readDigits_uint. f_equal.
    apply DecimalN.Unsigned.of_to.
Qed.

End ExitLine.

(** C6 (as the code has it).  When the child exits, the callback logs the
    line [mcp-remote exited with code ] followed by the code in decimal, or
    by [null] when there is none, and the gateway exits with the status of
    the child, 0 when the child gave 0, or with 1 when there is no code;
    whatever events come later, nothing else happens: no request is
    answered and no child is started. *)
Theorem child_exit_is_fatal (cfg : Config) (c : Cache) (code : option N)
    (later : list Event) :
  exists status line,
    run cfg (Running c) (ChildExit code :: later)
    = (Exited status, [ConsoleError line]) /\
    (forall n, code = Some n ->
       status = n /\
       exists digits,
         line = lit "mcp-remote exited with code " ++ digits /\
         Decimal.readDecimal digits = Some n) /\
    (code = None ->
       status = 1 /\ line = lit "mcp-remote exited with code null").
Proof.
  exists (nullish code 1),
    (lit "mcp-remote exited with code " ++ show_code code).
  split; [|split].
  - rewrite run_cons. cbn [step fst snd]. by rewrite run_exited.
  - intros n ->. split; [done|]. exists (show_code (Some n)).
    split; [done | apply show_code_decimal].
  - by intros ->.
Qed.

Lemma child_exit_is_fatal_witness :
  let later := [Incoming (Sample.request GET "/healthz" None);
                StdoutData Sample.loginChunk (lit "2026-01-05T10:00:00.000Z");
                ChildExit (Some 3)] in
  run Sample.config (Running Sample.held) (ChildExit (Some 137) :: later)
  = (Exited 137, [ConsoleError (lit "mcp-remote exited with code 137")]) /\
  run Sample.config (Running Sample.held) (ChildExit None :: later)
  = (Exited 1, [ConsoleError (lit "mcp-remote exited with code null")]) /\
  exists status line,
    run Sample.config (Running Sample.held) (ChildExit (Some 137) :: later)
    = (Exited status, [ConsoleError line]) /\
    status = 137 /\
    exists digits,
      line = lit "mcp-remote exited with code " ++ digits /\
      Decimal.readDecimal digits = Some 137.
Proof.
  intros later. split; [by vm_compute|]. split; [by vm_compute|].
  destruct (child_exit_is_fatal Sample.config Sample.held (Some 137) later)
    as (status & line & Hrun & Hsome & _).
  destruct (Hsome 137 eq_refl) as (Hstatus & digits & Hline & Hread).
  exists status, line. split; [exact Hrun|]. split; [exact Hstatus|].
  by exists digits.
Defined.

(** C6, read as a promise of a status that is not zero, fails: when the
    child exits with 0 the gateway exits with 0. *)
Lemma child_exit_zero_status :
  run Sample.config (Running noLink) [ChildExit (Some 0)]
  = (Exited 0, [ConsoleError (lit "mcp-remote exited with code 0")]).
Proof. by vm_compute. Qed.

(** ** More on the configuration *)
Section ConfigurationMore.
Import Spec.
Variable e : env.

Lemma requireEnv_nonempty name v : requireEnv e name = Ok v -> v <> [].
Proof.
  unfold requireEnv. destruct (e !! name) as [[|c w]|]; [done| |done].
  by intros [= <-].
Qed.

Lemma or_default_nonempty (a : option jsstring) d :
  d <> [] -> or_default a d <> [].
Proof. by destruct a as [[|c w]|]. Qed.

End ConfigurationMore.

(** X1.  A configuration that was read has no empty field: the required
    values because [requireEnv] refuses the empty string, the others because
    an empty value gives way to the default.  So the header the gate expects
    is longer than its scheme. *)
Theorem loadConfig_fields_nonempty (e : env) (cfg : Config) :
  loadConfig e = Ok cfg ->
  PUBLIC_BASE_URL cfg <> [] /\ STATIC_BEARER_TOKEN cfg <> [] /\
  PORT_text cfg <> [] /\ MCP_REMOTE_PORT_text cfg <> [] /\
  ROVO_MCP_URL cfg <> [] /\
  (length (lit "Bearer ") < length (Trace.expected cfg))%nat.
Proof.
  unfold loadConfig.
  destruct (requireEnv e "PUBLIC_BASE_URL") as [b|] eqn:Hb; [simpl | done].
  destruct (requireEnv e "STATIC_BEARER_TOKEN") as [t|] eqn:Ht; [simpl | done].
  intros [= <-]. apply requireEnv_nonempty in Hb, Ht.
  unfold Trace.expected. simpl.
  repeat split; try done; try (by repeat apply or_default_nonempty).
  destruct t; [done | simpl; lia].
Qed.

Lemma loadConfig_fields_nonempty_witness :
  exists cfg,
    loadConfig Sample.legacyEnv = Ok cfg /\
    PUBLIC_BASE_URL cfg <> [] /\ STATIC_BEARER_TOKEN cfg <> [] /\
    PORT_text cfg <> [] /\ MCP_REMOTE_PORT_text cfg <> [] /\
    ROVO_MCP_URL cfg <> [] /\
    (length (lit "Bearer ") < length (Trace.expected cfg))%nat.
Proof.
  eexists. split; [by vm_compute|].
  apply (loadConfig_fields_nonempty Sample.legacyEnv). reflexivity.
Defined.

(** X2.  The required variables are checked in the order of the file and
    the first one that is unset or empty is the one the error names:
    [PUBLIC_BASE_URL] whatever else is set, [STATIC_BEARER_TOKEN] when the
    base URL is there. *)
Theorem loadConfig_first_missing (e : env) :
  (Spec.missing e "PUBLIC_BASE_URL" ->
   loadConfig e = Throw "Missing required env var: PUBLIC_BASE_URL") /\
  (forall b, Spec.given e "PUBLIC_BASE_URL" b ->
   Spec.missing e "STATIC_BEARER_TOKEN" ->
   loadConfig e = Throw "Missing required env var: STATIC_BEARER_TOKEN").
Proof.
  unfold loadConfig. split.
  - intros Hb. by rewrite (requireEnv_missing _ _ Hb).
  - intros b Hb Ht.
    by rewrite (requireEnv_given _ _ _ Hb), (requireEnv_missing _ _ Ht).
Qed.

Lemma loadConfig_first_missing_witness :
  loadConfig (<[ "STATIC_BEARER_TOKEN"%string := lit "s3cret" ]>
                (<[ "PUBLIC_BASE_URL"%string := [] ]> ∅))
  = Throw "Missing required env var: PUBLIC_BASE_URL".
Proof.
  apply (loadConfig_first_missing
           (<[ "STATIC_BEARER_TOKEN"%string := lit "s3cret" ]>
              (<[ "PUBLIC_BASE_URL"%string := [] ]> ∅))).
  right. by vm_compute.
Defined.

(** X15.  In the revisions that proxy [/sse] the upstream URL is required:
    reading the configuration fails exactly when [PUBLIC_BASE_URL],
    [STATIC_BEARER_TOKEN] or [ROVO_MCP_SSE_URL] is unset or empty, and
    otherwise the URL is the text of [ROVO_MCP_SSE_URL] as it is; there is
    no second name and no default. *)
Theorem Legacy_upstream_required (e : env) :
  ((exists msg, Legacy.loadConfig e = Throw msg) <->
   Spec.missing e "PUBLIC_BASE_URL" \/ Spec.missing e "STATIC_BEARER_TOKEN" \/
   Spec.missing e "ROVO_MCP_SSE_URL") /\
  (forall cfg, Legacy.loadConfig e = Ok cfg ->
     Spec.given e "ROVO_MCP_SSE_URL" (Legacy.ROVO_MCP_SSE_URL cfg)).
Proof.
  unfold Legacy.loadConfig.
  destruct (missing_or_given e "PUBLIC_BASE_URL") as [Hb | [b Hb]].
  { rewrite (requireEnv_missing _ _ Hb). simpl. split; [|done].
    split; eauto. }
  rewrite (requireEnv_given _ _ _ Hb). simpl.
  destruct (missing_or_given e "STATIC_BEARER_TOKEN") as [Ht | [t Ht]].
  { rewrite (requireEnv_missing _ _ Ht). simpl. split; [|done].
    split; eauto. }
  rewrite (requireEnv_given _ _ _ Ht). simpl.
  destruct (missing_or_given e "ROVO_MCP_SSE_URL") as [Hu | [u Hu]].
  { rewrite (requireEnv_missing _ _ Hu). simpl. split; [|done].
    split; eauto. }
  rewrite (requireEnv_given _ _ _ Hu). simpl. split.
  - split; [by intros [msg [=]] |].
    intros [H | [H | H]]; by eapply missing_not_given in H.
  - by intros cfg [= <-].
Qed.

Lemma Legacy_upstream_required_witness :
  (exists msg, Legacy.loadConfig Sample.bareEnv = Throw msg) /\
  exists cfg,
    Legacy.loadConfig Sample.legacyEnv = Ok cfg /\
    Spec.given Sample.legacyEnv "ROVO_MCP_SSE_URL"
      (Legacy.ROVO_MCP_SSE_URL cfg).
Proof.
  split.
  - apply (Legacy_upstream_required Sample.bareEnv).
    right. right. by left.
  - eexists. split; [by vm_compute|].
    by apply (Legacy_upstream_required Sample.legacyEnv).
Defined.

(** ** More on the scraper *)
Section Scraper.
Import Regex Spec Trace.

Lemma UrlAt_shaped s m r : UrlAt s m r -> urlShaped m.
Proof.
  intros (scheme & body & Hs & Hb & Hf & _ & -> & _). by exists scheme, body.
Qed.

Lemma Scanned_shaped s us : Scanned s us -> Forall urlShaped us.
Proof.
  induction 1 as [| |s m r us Hm _ IH]; [done|done|].
  constructor; [by apply UrlAt_shaped with s r | done].
Qed.

Lemma scheme_no_stop scheme : isScheme scheme -> Forall (fun c => ~ stops c) scheme.
Proof.
  assert (forall c, In c (lit "https://") -> ~ stops c) as H.
  { intros c Hc [Hw | Hd].
    - simpl in Hc. by repeat destruct Hc as [<- | Hc].
    - simpl in Hc. repeat destruct Hc as [<- | Hc]; try done;
        by repeat destruct Hd as [Hd | Hd]. }
  intros [-> | ->]; apply List.Forall_forall; intros c Hc; apply H.
  - simpl in Hc |- *. repeat destruct Hc as [<- | Hc]; tauto.
  - done.
Qed.

Lemma urlShaped_no_stop u : urlShaped u -> Forall (fun c => ~ stops c) u.
Proof.
  intros (scheme & body & Hs & _ & Hb & ->).
  apply Forall_app. split; [by apply scheme_no_stop | done].
Qed.

Lemma urlShaped_long u : urlShaped u -> (8 <= length u)%nat.
Proof.
  intros (scheme & body & Hs & Hne & _ & ->). rewrite length_app.
  destruct body; [done|]. destruct Hs as [-> | ->]; simpl; lia.
Qed.

(** A URL is its own and only match. *)
Lemma urlShaped_Scanned u : urlShaped u -> Scanned u [u].
Proof.
  intros (scheme & body & Hs & Hne & Hb & ->).
  apply scanned_url with []; [|constructor].
  exists scheme, body. repeat split; try done. by rewrite app_nil_r.
Qed.

Lemma Scanned_weave s us :
  Scanned s us ->
  exists gaps last, length gaps = length us /\ s = weave gaps us last.
Proof.
  unfold weave.
  induction 1 as [|c s us _ _ IH|s m r us Hm _ IH].
  - by exists [], [].
  - destruct IH as (gaps & last & Hlen & ->).
    destruct us as [|m us], gaps as [|g gaps]; try done.
    + by exists [], (c :: last).
    + exists ((c :: g) :: gaps), last. split; [done|].
      simpl. by rewrite <- !app_assoc.
  - destruct IH as (gaps & last & Hlen & ->).
    destruct Hm as (_ & _ & _ & _ & _ & _ & _ & ->).
    exists ([] :: gaps), last. split; [simpl; by rewrite Hlen|].
    simpl. by rewrite <- !app_assoc.
Qed.

Lemma Scanned_count s us : Scanned s us -> (8 * length us <= length s)%nat.
Proof.
  induction 1 as [|c s us _ _ IH|s m r us Hm _ IH]; simpl in *; [lia|lia|].
  apply UrlAt_shorter in Hm. lia.
Qed.

(** A match cannot reach over a character that stops it. *)
Lemma UrlAt_cut a sep b m r :
  stops sep -> UrlAt (a ++ sep :: b) m r ->
  exists r', a = m ++ r' /\ r = r' ++ sep :: b.
Proof.
  intros Hsep Hu. pose proof (urlShaped_no_stop m (UrlAt_shaped _ _ _ Hu)) as Hm.
  destruct Hu as (_ & _ & _ & _ & _ & _ & _ & Heq).
  clear -Hsep Hm Heq. revert a Heq.
  induction Hm as [|x m Hx _ IH]; intros a Heq.
  - exists a. by split.
  - destruct a as [|y a]; simpl in Heq.
    + injection Heq as <- _. done.
    + injection Heq as <- Heq. destruct (IH a Heq) as (r' & -> & ->).
      by exists r'.
Qed.

Lemma UrlAt_extend s m r sep b :
  stops sep -> UrlAt s m r -> UrlAt (s ++ sep :: b) m (r ++ sep :: b).
Proof.
  intros Hsep (scheme & body & Hs & Hne & Hb & Hr & -> & ->).
  exists scheme, body. repeat split; try done.
  - by destruct r.
  - by rewrite <- !app_assoc.
Qed.

Lemma UrlAt_restrict a sep b m r' :
  UrlAt (m ++ r' ++ sep :: b) m (r' ++ sep :: b) -> a = m ++ r' ->
  UrlAt a m r'.
Proof.
  intros (scheme & body & Hs & Hne & Hb & Hr & Hm & _) ->.
  exists scheme, body. repeat split; try done. by destruct r'.
Qed.

Lemma Scanned_join a us sep b vs :
  stops sep -> Scanned a us -> Scanned b vs ->
  Scanned (a ++ sep :: b) (us ++ vs).
Proof.
  intros Hsep Ha Hb.
  induction Ha as [|c s us Hno _ IH|s m r us Hm _ IH]; simpl.
  - apply scanned_skip; [|done].
    intros m r Hu.
    pose proof (urlShaped_no_stop m (UrlAt_shaped _ _ _ Hu)) as Hm.
    pose proof (urlShaped_long m (UrlAt_shaped _ _ _ Hu)) as Hl.
    destruct Hu as (_ & _ & _ & _ & _ & _ & _ & Heq).
    destruct m as [|x m]; [simpl in Hl; lia|].
    injection Heq as <- _. by inversion Hm.
  - apply scanned_skip; [|done].
    intros m r Hu.
    destruct (UrlAt_cut (c :: s) sep b m r Hsep Hu) as (r' & Ha' & ->).
    apply (Hno m r'). apply UrlAt_restrict with sep b; [|done].
    change (c :: s ++ sep :: b) with ((c :: s) ++ sep :: b) in Hu.
    rewrite Ha' in Hu. by rewrite <- app_assoc in Hu.
  - apply scanned_url with (r ++ sep :: b); [|done].
    by apply UrlAt_extend.
Qed.

End Scraper.

(** X3.  Every URL the scraper returns begins with [http://] or
    [https://], goes on for one character at least, so has eight or more,
    and holds neither white space nor a closing delimiter. *)
Theorem extractUrls_shaped (text u : jsstring) :
  In u (extractUrls text) ->
  (exists body,
     body <> [] /\ (u = lit "http://" ++ body \/ u = lit "https://" ++ body)) /\
  (8 <= length u)%nat /\
  Forall (fun c => ~ Spec.stops c) u.
Proof.
  intros Hin.
  assert (Trace.urlShaped u) as Hu.
  { assert (Forall Trace.urlShaped (extractUrls text)) as Hall
      by by apply Scanned_shaped with text, extractUrls_Scanned.
    by apply (proj1 (List.Forall_forall _ _) Hall). }
  split; [|split].
  - destruct Hu as (scheme & body & [-> | ->] & Hne & _ & ->);
      exists body; auto.
  - by apply urlShaped_long.
  - by apply urlShaped_no_stop.
Qed.

Lemma extractUrls_shaped_witness :
  let u := lit "https://id.example/auth?state=2" in
  In u (extractUrls Sample.retryChunk) /\
  (exists body,
     body <> [] /\ (u = lit "http://" ++ body \/ u = lit "https://" ++ body)) /\
  (8 <= length u)%nat /\
  Forall (fun c => ~ Spec.stops c) u.
Proof.
  intros u.
  assert (In u (extractUrls Sample.retryChunk)) as Hin by (right; by left).
  split; [exact Hin|].
  exact (extractUrls_shaped Sample.retryChunk u Hin).
Defined.

(** X4.  The URLs the scraper returns lie in the text in the order of the
    result and without overlap: the text is a first gap, the first URL, a
    second gap, the second URL and so on, and a last piece behind them. *)
Theorem extractUrls_weave (text : jsstring) :
  exists gaps last,
    length gaps = length (extractUrls text) /\
    text = Trace.weave gaps (extractUrls text) last.
Proof. by apply Scanned_weave, extractUrls_Scanned. Qed.

(** X5.  A text of [n] characters holds [n / 8] URLs at most; a text of
    fewer than eight characters holds none. *)
Theorem extractUrls_count (text : jsstring) :
  (8 * length (extractUrls text) <= length text)%nat /\
  ((length text < 8)%nat -> extractUrls text = []).
Proof.
  assert (8 * length (extractUrls text) <= length text)%nat as H
    by by apply Scanned_count, extractUrls_Scanned.
  split; [done|]. intros Hl. destruct (extractUrls text); [done|].
  simpl in H. lia.
Qed.

(** X6.  Scraping a URL that the scraper returned gives that URL back,
    alone. *)
Theorem extractUrls_again (text u : jsstring) :
  In u (extractUrls text) -> extractUrls u = [u].
Proof.
  intros Hin. apply extractUrls_Scanned, urlShaped_Scanned.
  assert (Forall Trace.urlShaped (extractUrls text)) as Hall
    by by apply Scanned_shaped with text, extractUrls_Scanned.
  by apply (proj1 (List.Forall_forall _ _) Hall).
Qed.

Lemma extractUrls_again_witness :
  let u := lit "https://id.example/old" in
  In u (extractUrls Sample.retryChunk) /\ extractUrls u = [u].
Proof.
  intros u.
  assert (In u (extractUrls Sample.retryChunk)) as Hin by by left.
  split; [exact Hin|].
  exact (extractUrls_again Sample.retryChunk u Hin).
Defined.

(** X7.  No match reaches over white space or a closing delimiter: the
    URLs of two texts joined by such a character are the URLs of the first
    followed by the URLs of the second. *)
Theorem extractUrls_join (a b : jsstring) (sep : N) :
  Spec.stops sep ->
  extractUrls (a ++ sep :: b) = extractUrls a ++ extractUrls b.
Proof.
  intros Hsep. apply extractUrls_Scanned.
  apply Scanned_join; [done | |]; by apply extractUrls_Scanned.
Qed.

Lemma extractUrls_join_witness :
  Spec.stops 10 /\
  extractUrls (Sample.loginChunk ++ 10 :: Sample.retryChunk)
  = extractUrls Sample.loginChunk ++ extractUrls Sample.retryChunk.
Proof.
  assert (Spec.stops 10) as H by (by left).
  split; [exact H|].
  exact (extractUrls_join Sample.loginChunk Sample.retryChunk 10 H).
Defined.

(** ** More on the route table *)
Section RoutesMore.
Import Trace.
Variable cfg : Config.

(** No open path is the path of the login-link route or lies under the
    mount path of the marked proxy. *)
Lemma open_not_protected p :
  isOpenPath p = true ->
  routeMatch (lit "/login-link") p = false /\
  mountMatch (lit "/mcp") p = false.
Proof.
  intros [Hp | [[s ->] | [s ->]]]%isOpenPath_true.
  - apply OPEN_PATHS_EXACT_elem in Hp as [-> | [-> | ->]]; by vm_compute.
  - by vm_compute.
  - by vm_compute.
Qed.

Lemma app_open c req :
  servesGet (method req) && routeMatch (lit "/healthz") (path req) = false ->
  isOpenPath (path req) = true ->
  app cfg c req = Proxied false.
Proof.
  intros Hh Ho. destruct (open_not_protected _ Ho) as [Hl Hm].
  unfold app, layers, dispatch, layerMatch, handler.
  change (routeMatch (lit "/healthz/") (path req))
    with (routeMatch (lit "/healthz") (path req)).
  rewrite Hh, authGate_open, Hl, Hm, andb_false_r by done.
  by change (mountMatch (lit "/") (path req)) with true.
Qed.

Lemma app_health_any c req :
  servesGet (method req) && routeMatch (lit "/healthz") (path req) = true ->
  app cfg c req = healthy.
Proof.
  intros Hh. unfold app, layers, dispatch, layerMatch, handler.
  by rewrite Hh.
Qed.

Lemma app_credential c req :
  authorization req = Some (expected cfg) ->
  app cfg c req = healthy \/ app cfg c req = loginLink c \/
  app cfg c req = Proxied true \/ app cfg c req = Proxied false.
Proof.
  intros Ha.
  assert (authGate (STATIC_BEARER_TOKEN cfg) req = Next) as Hg.
  { destruct (isOpenPath (path req)) eqn:Ho; [by apply authGate_open|].
    rewrite authGate_closed by done. by rewrite bool_decide_eq_true_2. }
  unfold app, layers, dispatch, layerMatch, handler. rewrite Hg.
  change (mountMatch (lit "/") (path req)) with true. cbv iota.
  repeat case_match; auto.
Qed.

End RoutesMore.

(** X9.  Without the exact credential a request gets one of three things
    and nothing else: the health answer, the 401 of the gate, or, on an open
    path, the unmarked proxy.  It never reaches the login-link handler, so no
    answer to it carries a [login_url], and never the marked [/mcp] proxy. *)
Theorem no_credential_no_access (cfg : Config) (c : Cache) (req : Request) :
  authorization req <> Some (Trace.expected cfg) ->
  (app cfg c req = healthy \/
   app cfg c req = unauthorized \/
   (isOpenPath (path req) = true /\ app cfg c req = Proxied false)) /\
  (forall status body,
     app cfg c req = Respond status body -> field "login_url" body = None).
Proof.
  intros Ha.
  assert (app cfg c req = healthy \/ app cfg c req = unauthorized \/
          (isOpenPath (path req) = true /\ app cfg c req = Proxied false))
    as H.
  { destruct (servesGet (method req) && routeMatch (lit "/healthz") (path req))
      eqn:Hh.
    - left. by apply app_health_any.
    - destruct (isOpenPath (path req)) eqn:Ho.
      + right. right. split; [done|]. by apply app_open.
      + right. left. by apply app_closed. }
  split; [done|]. intros status body Hr.
  destruct H as [H | [H | [_ H]]]; rewrite H in Hr; [| |done];
    by injection Hr as _ <-.
Qed.

Lemma no_credential_no_access_witness :
  let req := Sample.request GET "/login-link" (Some "Bearer guess") in
  authorization req <> Some (Trace.expected Sample.config) /\
  app Sample.config Sample.held req = unauthorized.
Proof.
  intros req.
  assert (authorization req <> Some (Trace.expected Sample.config)) as Ha
    by by vm_compute.
  split; [exact Ha|].
  destruct (no_credential_no_access Sample.config Sample.held req Ha)
    as [[H | [H | [H _]]] _]; [by vm_compute in H | exact H | by vm_compute in H].
Defined.

(** X10.  No request is left to the final handler of the router, and a
    request with the exact credential is never answered 401: it gets the
    health answer, the login-link answer or one of the two proxies. *)
Theorem credential_always_served (cfg : Config) (c : Cache) (req : Request) :
  app cfg c req <> Unhandled /\
  (authorization req = Some (Trace.expected cfg) ->
   (app cfg c req = healthy \/ app cfg c req = loginLink c \/
    app cfg c req = Proxied true \/ app cfg c req = Proxied false) /\
   forall body, app cfg c req <> Respond 401 body).
Proof.
  split.
  - destruct (app_cases cfg c req) as [H|[H|[H|[H|H]]]]; rewrite H; try done.
    unfold loginLink. by case_match.
  - intros Ha. pose proof (app_credential cfg c req Ha) as H.
    split; [done|]. intros body.
    destruct H as [H|[H|[H|H]]]; rewrite H; try done.
    apply loginLink_not_401.
Qed.

Lemma credential_always_served_witness :
  let req := Sample.request POST "/mcp/messages" (Some "Bearer s3cret") in
  authorization req = Some (Trace.expected Sample.config) /\
  app Sample.config noLink req = Proxied true.
Proof.
  intros req. split; [reflexivity|].
  destruct (credential_always_served Sample.config noLink req) as [_ H].
  destruct (H eq_refl) as [[E | [E | [E | E]]] _];
    [by vm_compute in E | by vm_compute in E | exact E | by vm_compute in E].
Defined.

(** ** More on the event loop *)
Section EventLoopMore.
Import Spec Trace.
Variable cfg : Config.

(** What a running process holds is what it started with or the last URL
    of a chunk that it was fed, with the time of that chunk. *)
Lemma run_provenance es c0 c :
  fst (run cfg (Running c0) es) = Running c ->
  c = c0 \/
  exists e chunk now us u,
    In e es /\ isData e chunk now /\ extractUrls chunk = us ++ [u] /\
    c = {| latestLoginUrl := Some u; latestLoginUrlSeenAt := Some now |}.
Proof.
  revert c0; induction es as [|e es IH]; intros c0.
  - simpl. intros [= <-]. by left.
  - rewrite run_cons. cbn [fst]. intros Hr.
    destruct (run_running _ _ _ _ Hr) as [c1 Hc1]. rewrite Hc1 in Hr.
    destruct (IH c1 Hr) as [-> | (e' & chunk & now & us & u & Hin & H)].
    + apply step_running in Hc1
        as [(chunk & now & Hd & ->) | (req & _ & ->)]; [|by left].
      destruct (extractUrls chunk) as [|u0 us0] eqn:Hu.
      * left. by apply capture_url_free.
      * assert (extractUrls chunk <> []) as Hne by by rewrite Hu.
        destruct (exists_last Hne) as (us & u & Hl).
        right. exists e, chunk, now, us, u.
        split; [by left|]. split; [done|]. split; [done|].
        by apply capture_last with us.
    + right. exists e', chunk, now, us, u. split; [by right | done].
Qed.


End EventLoopMore.

(** X8.  Whatever the gateway has been through since its start, a URL in
    its cache is the last match of a chunk that the child wrote to one of
    its two streams, and the time beside it is the time of that chunk; so
    the URL has the shape of a match. *)
Theorem cache_provenance (cfg : Config) (es : list Event) (c : Cache)
    (u : jsstring) :
  fst (run cfg (Running noLink) es) = Running c ->
  latestLoginUrl c = Some u ->
  (exists e chunk now us,
     In e es /\ Spec.isData e chunk now /\ extractUrls chunk = us ++ [u] /\
     latestLoginUrlSeenAt c = Some now) /\
  Trace.urlShaped u.
Proof.
  intros Hr Hu.
  destruct (run_provenance cfg es noLink c Hr)
    as [-> | (e & chunk & now & us & u' & Hin & Hd & Hx & ->)]; [done|].
  simpl in Hu. injection Hu as ->. split.
  - by exists e, chunk, now, us.
  - assert (Forall Trace.urlShaped (extractUrls chunk)) as Hall
      by by apply Scanned_shaped with chunk, extractUrls_Scanned.
    rewrite Hx in Hall. apply Forall_app in Hall as [_ Hall].
    by inversion Hall.
Qed.

Lemma cache_provenance_witness :
  let es := [StderrData Sample.retryChunk (lit "2026-01-05T10:00:07.500Z");
             Incoming (Sample.request GET "/healthz" None);
             StdoutData (lit "still waiting") (lit "2026-01-05T10:00:09.000Z")]
  in
  exists c u,
    fst (run Sample.config (Running noLink) es) = Running c /\
    latestLoginUrl c = Some u /\
    (exists e chunk now us,
       In e es /\ Spec.isData e chunk now /\ extractUrls chunk = us ++ [u] /\
       latestLoginUrlSeenAt c = Some now) /\
    Trace.urlShaped u.
Proof.
  intros es. eexists. eexists.
  split; [by vm_compute|]. split; [reflexivity|].
  apply (cache_provenance Sample.config es); reflexivity.
Defined.



(** ** The revision with a version route *)
Section VersionedRoutes.
Import Trace.
Variable e : env.
Variable cfg : Config.

Lemma Versioned_open_no_route p :
  Versioned.isOpenPath p = true ->
  routeMatch (lit "/login-link") p = false /\
  routeMatch (lit "/mcp") p = false /\
  mountMatch (lit "/mcp") p = false.
Proof.
  intros [Ho | [-> | ->]]%Versioned_isOpenPath_true.
  - destruct (open_not_protected _ Ho) as [Hl Hm]. split; [done|].
    split; [|done].
    apply isOpenPath_true in Ho as [Hp | [[s ->] | [s ->]]].
    + apply OPEN_PATHS_EXACT_elem in Hp as [-> | [-> | ->]]; by vm_compute.
    + by vm_compute.
    + by vm_compute.
  - by vm_compute.
  - by vm_compute.
Qed.

Lemma open_no_front_route p :
  isOpenPath p = true ->
  routeMatch (lit "/healthz") p = false /\
  routeMatch (lit "/__version") p = false.
Proof.
  intros [Hp | [[s ->] | [s ->]]]%isOpenPath_true.
  - apply OPEN_PATHS_EXACT_elem in Hp as [-> | [-> | ->]]; by vm_compute.
  - by vm_compute.
  - by vm_compute.
Qed.

Lemma VersionedApp_gate_open req marked :
  Versioned.isOpenPath (path req) = true ->
  VersionedApp.authGate (STATIC_BEARER_TOKEN cfg) req marked
  = VersionedApp.Next marked.
Proof. intros Ho. unfold VersionedApp.authGate. by rewrite Ho. Qed.

Lemma VersionedApp_gate_closed req marked :
  Versioned.isOpenPath (path req) = false ->
  authorization req <> Some (expected cfg) ->
  VersionedApp.authGate (STATIC_BEARER_TOKEN cfg) req marked
  = VersionedApp.Done unauthorized.
Proof.
  intros Hc Ha. unfold VersionedApp.authGate. rewrite Hc.
  destruct (authorization req) as [[|x a]|]; simpl or_default.
  - by rewrite (proj2 (str_eqb_neq _ _)).
  - rewrite (proj2 (str_eqb_neq _ _)); [done|].
    intros E. apply Ha. by rewrite E.
  - by rewrite (proj2 (str_eqb_neq _ _)).
Qed.

Lemma VersionedApp_open c req :
  Versioned.isOpenPath (path req) = true ->
  VersionedApp.app e cfg c req = healthy \/
  VersionedApp.app e cfg c req = VersionedApp.version e cfg \/
  VersionedApp.app e cfg c req = Unhandled.
Proof.
  intros Ho. destruct (Versioned_open_no_route _ Ho) as (Hl & Hr & Hm).
  unfold VersionedApp.app, VersionedApp.layers, VersionedApp.dispatch,
    VersionedApp.layerMatch, VersionedApp.handler.
  rewrite VersionedApp_gate_open, Hl, Hr, Hm, andb_false_r by done.
  change (mountMatch (lit "/") (path req)) with true. cbv iota.
  repeat case_match; auto.
Qed.

End VersionedRoutes.

(** X16.  In the revision with a version route the paths that the gate
    lets through for the OAuth provider lead nowhere: a request to an exact
    callback path or to a path under [/oauth/] or [/auth/] passes the gate,
    meets no route and no proxy, and is left to the final handler of the
    router, with or without credential. *)
Theorem Versioned_callbacks_unhandled (e : env) (cfg : Config) (c : Cache)
    (req : Request) :
  isOpenPath (path req) = true ->
  VersionedApp.app e cfg c req = Unhandled.
Proof.
  intros Ho. destruct (open_no_front_route _ Ho) as [Hh Hv].
  assert (Versioned.isOpenPath (path req) = true) as Hvo
    by (apply Versioned_isOpenPath_true; by left).
  destruct (Versioned_open_no_route _ Hvo) as (Hl & Hr & Hm).
  unfold VersionedApp.app, VersionedApp.layers, VersionedApp.dispatch,
    VersionedApp.layerMatch, VersionedApp.handler.
  rewrite (VersionedApp_gate_open cfg) by done.
  rewrite Hh, Hv, Hl, Hr, Hm, !andb_false_r.
  by change (mountMatch (lit "/") (path req)) with true.
Qed.

Lemma Versioned_callbacks_unhandled_witness :
  let req := Sample.request GET "/oauth/callback" (Some "Bearer s3cret") in
  isOpenPath (path req) = true /\
  VersionedApp.app Sample.bareEnv Sample.config noLink req = Unhandled /\
  app Sample.config noLink req = Proxied false.
Proof.
  intros req. split; [by vm_compute|]. split; [|by vm_compute].
  apply (Versioned_callbacks_unhandled Sample.bareEnv Sample.config noLink req).
  by vm_compute.
Defined.

(** X17.  In the revision with a version route a request without the exact
    credential gets the health answer, the version answer, the 401 of the
    gate, or, on a path open for its classifier, no answer of the gateway at
    all; it reaches neither the login-link handler nor the proxy. *)
Theorem Versioned_no_credential (e : env) (cfg : Config) (c : Cache)
    (req : Request) :
  authorization req <> Some (Trace.expected cfg) ->
  VersionedApp.app e cfg c req = healthy \/
  VersionedApp.app e cfg c req = VersionedApp.version e cfg \/
  VersionedApp.app e cfg c req = unauthorized \/
  (Versioned.isOpenPath (path req) = true /\
   VersionedApp.app e cfg c req = Unhandled).
Proof.
  intros Ha. destruct (Versioned.isOpenPath (path req)) eqn:Ho.
  - destruct (VersionedApp_open e cfg c req Ho) as [H | [H | H]]; auto.
  - unfold VersionedApp.app, VersionedApp.layers, VersionedApp.dispatch,
      VersionedApp.layerMatch, VersionedApp.handler.
    rewrite (VersionedApp_gate_closed cfg) by done.
    change (mountMatch (lit "/") (path req)) with true. cbv iota.
    repeat case_match; auto.
Qed.

Lemma Versioned_no_credential_witness :
  let req := Sample.request GET "/__version" None in
  authorization req <> Some (Trace.expected Sample.config) /\
  VersionedApp.app Sample.bareEnv Sample.config Sample.held req
  = VersionedApp.version Sample.bareEnv Sample.config.
Proof.
  intros req.
  assert (authorization req <> Some (Trace.expected Sample.config)) as Ha
    by done.
  split; [exact Ha|].
  destruct (Versioned_no_credential Sample.bareEnv Sample.config Sample.held
              req Ha) as [H | [H | [H | [_ H]]]];
    [by vm_compute in H | exact H | by vm_compute in H | by vm_compute in H].
Defined.

(** X18.  The revision with a version route does not know the legacy name:
    setting, changing or removing [ROVO_MCP_SSE_URL] changes nothing of the
    configuration it reads. *)
Theorem Versioned_ignores_legacy_name (e : env) (v : jsstring) :
  VersionedApp.loadConfig (<[ "ROVO_MCP_SSE_URL"%string := v ]> e)
  = VersionedApp.loadConfig e /\
  VersionedApp.loadConfig (delete "ROVO_MCP_SSE_URL"%string e)
  = VersionedApp.loadConfig e.
Proof.
  unfold VersionedApp.loadConfig, requireEnv.
  split.
  - by rewrite !lookup_insert_ne by done.
  - by rewrite !lookup_delete_ne by done.
Qed.

(** X14.  The classifier of the revision with a version route opens the
    exact callback paths, the paths under [/oauth/] and [/auth/], the health
    path and the version path, and no other: the health path with a trailing
    slash is closed for it. *)
Theorem Versioned_classifier (p : jsstring) :
  (Versioned.isOpenPath p = true <->
     p ∈ OPEN_PATHS_EXACT \/
     (exists s, p = lit "/oauth/" ++ s) \/ (exists s, p = lit "/auth/" ++ s) \/
     p = lit "/healthz" \/ p = lit "/__version") /\
  Versioned.isOpenPath (lit "/healthz/") = false.
Proof.
  split; [|by vm_compute].
  rewrite Versioned_isOpenPath_true, isOpenPath_true. tauto.
Qed.
